(** * The chat client of ai-lab: event loop, busy lock and markdown rendering

    A shallow embedding of [frontend/app.js] and of its later revision (the
    file that adds [formatMarkdown]), together with the facts the
    specification states about the presentation layer.

    JavaScript strings are sequences of UTF-16 code units; they are modelled
    as lists of [N].  The host functions that the client calls but does not
    define ([JSON.parse], [Number::toString]) are fields of the class [Host];
    every theorem holds for every host. *)

From Stdlib Require Import List NArith ZArith Bool Arith Lia String Ascii.
From Stdlib Require Import Floats.SpecFloat DecimalString.
Import ListNotations.

Set Implicit Arguments.
Set Warnings "-register-all".
Open Scope N_scope.
Open Scope list_scope.

(** ** JavaScript strings *)

Module Js.

Definition JsString := list N.

(** An ASCII literal as code units. *)
Definition js (s : string) : JsString :=
  map N_of_ascii (list_ascii_of_string s).

Definition dquote : N := 34.
Definition apostrophe : N := 39.

(** A literal in which every apostrophe stands for a double quote (used to
    write JSON and HTML attribute text). *)
Definition jsq (s : string) : JsString :=
  map (fun c => if c =? apostrophe then dquote else c) (js s).

Definition amp : N := 38.
Definition lt : N := 60.
Definition gt : N := 62.
Definition star : N := 42.
Definition newline : N := 10.
Definition comma : N := 44.
(** U+2022 BULLET *)
Definition bullet : N := 8226.
(** U+26A0 WARNING SIGN followed by U+FE0F VARIATION SELECTOR-16 *)
Definition warning : JsString := [9888; 65039].

Fixpoint eqb (a b : JsString) : bool :=
  match a, b with
  | [], [] => true
  | x :: a', y :: b' => (x =? y) && eqb a' b'
  | _, _ => false
  end.

(** [s.startsWith(p)] *)
Fixpoint startsWith (p s : JsString) : bool :=
  match p, s with
  | [], _ => true
  | x :: p', y :: s' => (x =? y) && startsWith p' s'
  | _ :: _, [] => false
  end.

(** [s.slice(n)] for [0 <= n] *)
Definition slice (n : nat) (s : JsString) : JsString := skipn n s.

(** [s.split(sep)] for a one-unit separator: never empty, [''.split] is
    [['']]. *)
Fixpoint split (sep : N) (s : JsString) : list JsString :=
  match s with
  | [] => [[]]
  | c :: s' =>
    if c =? sep then [] :: split sep s'
    else match split sep s' with
         | [] => [[c]]
         | seg :: segs => (c :: seg) :: segs
         end
  end.

(** [xs.join(sep)] *)
Fixpoint join (sep : JsString) (xs : list JsString) : JsString :=
  match xs with
  | [] => []
  | [x] => x
  | x :: xs' => x ++ sep ++ join sep xs'
  end.

(** White space and line terminators, the units [trim] strips. *)
Definition isWhiteSpace (c : N) : bool :=
  ((9 <=? c) && (c <=? 13)) || (c =? 32) || (c =? 160) || (c =? 5760)
  || ((8192 <=? c) && (c <=? 8202)) || (c =? 8232) || (c =? 8233)
  || (c =? 8239) || (c =? 8287) || (c =? 12288) || (c =? 65279).

Fixpoint trimStart (s : JsString) : JsString :=
  match s with
  | [] => []
  | c :: s' => if isWhiteSpace c then trimStart s' else s
  end.

(** [s.trim()] *)
Definition trim (s : JsString) : JsString :=
  rev (trimStart (rev (trimStart s))).

(** The longest prefix whose units satisfy [p], and what follows it. *)
Fixpoint span (p : N -> bool) (s : JsString) : JsString * JsString :=
  match s with
  | [] => ([], [])
  | c :: s' =>
    if p c then let (a, b) := span p s' in (c :: a, b) else ([], s)
  end.

(** What a pattern does at the head of the remaining input: [None] when it
    does not match there, otherwise the text that replaces the match and the
    number of code units the match takes after its first one. *)
Definition Matcher := JsString -> option (JsString * nat).

(** The scan of [s.replace(/.../g, ...)]: left to right, a match is replaced
    and the scan resumes after it, an unmatched unit is copied.  None of the
    client's patterns matches the empty string. *)
Fixpoint replace_from (m : Matcher) (skip : nat) (s : JsString) : JsString :=
  match s with
  | [] => []
  | c :: s' =>
    match skip with
    | S k => replace_from m k s'
    | O =>
      match m s with
      | Some (r, n) => r ++ replace_from m n s'
      | None => c :: replace_from m 0 s'
      end
    end
  end.

Definition replace (m : Matcher) (s : JsString) : JsString :=
  replace_from m 0 s.

(** A pattern that is a literal text, with a replacement free of [$]. *)
Definition literal (pat rep : JsString) : Matcher :=
  fun s => if startsWith pat s then Some (rep, pred (List.length pat)) else None.

End Js.

Import Js.

(** ** formatMarkdown (later revision only) *)

Definition strong_open : JsString := js "<strong>".
Definition strong_close : JsString := js "</strong>".
Definition br : JsString := js "<br>".
Definition span_bullet : JsString := jsq "<span style='color: #60a5fa;'>".
Definition span_warning : JsString := jsq "<span style='color: #fbbf24;'>".
Definition span_close : JsString := js "</span>".

(** [/\*\*([^*]+)\*\*/] with replacement ['<strong>$1</strong>'].  The group
    is greedy and a shorter group is followed by a unit that is not a star,
    so the only candidate is the whole run of non-star units. *)
Definition bold : Matcher :=
  fun s =>
    if startsWith [star; star] s then
      let (g, rest) := span (fun c => negb (c =? star)) (skipn 2 s) in
      match g with
      | [] => None
      | _ :: _ =>
        if startsWith [star; star] rest
        then Some (strong_open ++ g ++ strong_close, 1 + List.length g + 2)%nat
        else None
      end
    else None.

Definition escapeHtml (text : JsString) : JsString :=
  replace (literal [gt] (js "&gt;"))
    (replace (literal [lt] (js "&lt;"))
      (replace (literal [amp] (js "&amp;")) text)).

Definition formatMarkdown (text : JsString) : JsString :=
  (* Escape HTML first *)
  let html := escapeHtml text in
  (* Bold: **text** *)
  let html := replace bold html in
  (* Newlines to <br> *)
  let html := replace (literal [newline] br) html in
  (* Style bullet points *)
  let html := replace (literal [bullet] (span_bullet ++ [bullet] ++ span_close)) html in
  (* Style warning emoji *)
  let html := replace (literal warning (span_warning ++ warning ++ span_close)) html in
  html.

(** *** What the output of [formatMarkdown] is made of *)

Definition entities : list JsString := [js "&amp;"; js "&lt;"; js "&gt;"].

(** The tags that the formatter writes itself. *)
Definition formatter_tags : list JsString :=
  [strong_open; strong_close; br; span_bullet; span_warning; span_close].

(** A unit that is no HTML syntax. *)
Definition plain (c : N) : Prop := c <> lt /\ c <> gt /\ c <> amp.

(** A text that is a sequence of plain units and of words of [allowed]:
    every [<], [>] and [&] in it belongs to one of these words. *)
Inductive tokens (allowed : list JsString) : JsString -> Prop :=
| tokens_nil : tokens allowed []
| tokens_unit c s : plain c -> tokens allowed s -> tokens allowed (c :: s)
| tokens_word w s : In w allowed -> tokens allowed s -> tokens allowed (w ++ s).

(** The words that may carry HTML syntax in the output. *)
Definition html_words : list JsString := entities ++ formatter_tags.

(** Every word starts with a unit of HTML syntax. *)
Definition led (A : list JsString) : Prop :=
  forall w, In w A -> exists c w', w = c :: w' /\ ~ plain c.

(** Decidable forms of "the unit occurs in no word" and of [led]. *)
Definition absentb (x : N) (A : list JsString) : bool :=
  forallb (fun w => negb (existsb (N.eqb x) w)) A.

Definition ledb (A : list JsString) : bool :=
  forallb (fun w => match w with
                    | c :: _ => (c =? lt) || (c =? amp)
                    | [] => false
                    end) A.

(** What escaping does to one unit. *)
Definition escape_unit (c : N) : JsString :=
  if c =? amp then js "&amp;"
  else if c =? lt then js "&lt;"
  else if c =? gt then js "&gt;"
  else [c].

(** ** JavaScript values

    What [JSON.parse] returns, and [undefined], which a property read can
    produce.  Numbers are binary64 floats. *)

Inductive JsValue :=
| Undefined
| Null
| Bool (b : bool)
| Number (x : spec_float)
| Str (s : JsString)
| Arr (xs : list JsValue)
| Obj (props : list (JsString * JsValue)).

(** An own property of an object literal. *)
Fixpoint own (key : JsString) (props : list (JsString * JsValue)) : option JsValue :=
  match props with
  | [] => None
  | (k, v) :: props' => if Js.eqb k key then Some v else own key props'
  end.

(** [v.key] for a name that no built-in prototype defines (the client reads
    [type] and [content] only): [None] is the TypeError of reading a
    property of [null] or [undefined]. *)
Definition get (v : JsValue) (key : JsString) : option JsValue :=
  match v with
  | Undefined | Null => None
  | Obj props =>
    match own key props with
    | Some x => Some x
    | None => Some Undefined
    end
  | _ => Some Undefined
  end.

(** [v === 'lit'] *)
Definition strict_eq_str (v : JsValue) (lit : JsString) : bool :=
  match v with
  | Str s => Js.eqb s lit
  | _ => false
  end.

(** The host functions the client relies on. *)
Class Host := {
  (** [Number::toString] *)
  Number_toString : spec_float -> JsString;
  (** [JSON.parse]: [None] is a SyntaxError *)
  JSON_parse : JsString -> option JsValue
}.

Section Coercion.
Context `{Host}.

(** String coercion, as done by [+=] on a string and by a template literal.
    A parsed object has no callable property, so an own [toString] leaves no
    way to a primitive: that is the TypeError [None].  An array is joined
    with commas, [null] and [undefined] elements giving the empty text. *)
Fixpoint ToString (v : JsValue) : option JsString :=
  match v with
  | Undefined => Some (js "undefined")
  | Null => Some (js "null")
  | Bool true => Some (js "true")
  | Bool false => Some (js "false")
  | Number x => Some (Number_toString x)
  | Str s => Some s
  | Arr xs =>
    let element (x : JsValue) : option JsString :=
      match x with
      | Undefined | Null => Some []
      | _ => ToString x
      end in
    (fix elements (xs : list JsValue) : option JsString :=
       match xs with
       | [] => Some []
       | [x] => element x
       | x :: xs' =>
         match element x, elements xs' with
         | Some a, Some b => Some (a ++ [comma] ++ b)
         | _, _ => None
         end
       end) xs
  | Obj props =>
    match own (js "toString") props with
    | Some _ => None
    | None => Some (js "[object Object]")
    end
  end.

End Coercion.

(** ** The page *)

(** The children of an element, as last assigned: through [innerHTML]
    (parsed as HTML) or through [textContent] (one text node). *)
Inductive Content :=
| Markup (html : JsString)
| PlainText (s : JsString).

(** One call of [send]: the user message, the assistant message with its
    [status] and [response] elements, the local [text], and whether the call
    is still suspended at an [await]. *)
Record Turn := mkTurn {
  userMsg : JsString;
  status_className : JsString;
  status_innerHTML : JsString;
  response : Content;
  text : JsString;
  awaiting : bool
}.

Definition set_status_className (c : JsString) (t : Turn) : Turn :=
  mkTurn (userMsg t) c (status_innerHTML t) (response t) (text t) (awaiting t).
Definition set_status_innerHTML (h : JsString) (t : Turn) : Turn :=
  mkTurn (userMsg t) (status_className t) h (response t) (text t) (awaiting t).
Definition set_response (r : Content) (t : Turn) : Turn :=
  mkTurn (userMsg t) (status_className t) (status_innerHTML t) r (text t) (awaiting t).
Definition set_text (x : JsString) (t : Turn) : Turn :=
  mkTurn (userMsg t) (status_className t) (status_innerHTML t) (response t) x (awaiting t).
Definition set_awaiting (b : bool) (t : Turn) : Turn :=
  mkTurn (userMsg t) (status_className t) (status_innerHTML t) (response t) (text t) b.

(** [busy], the send button, the input field, and the messages of [#chat]
    (a user message and an assistant message per turn).  Scrolling and focus
    are not modelled. *)
Record Page := mkPage {
  busy : bool;
  btn_disabled : bool;
  input_value : JsString;
  chat : list Turn
}.

Definition initial : Page := mkPage false false [] [].

(** [`<div class="spinner"></div><span>${content}</span>`] *)
Definition spinner (content : JsString) : JsString :=
  jsq "<div class='spinner'></div><span>" ++ content ++ js "</span>".

Notation "x <- e ;; k" := (match e with Some x => k | None => None end)
  (at level 61, e at next level, right associativity).

(** How a network request ends: [fetch] rejects (or the response has no
    body), or the reader delivers chunks, here already decoded, and then
    reports the end of the stream or rejects a read. *)
Inductive Ending := Closed | ReadRejected.
Inductive Network :=
| ConnectFailed
| Streamed (chunks : list JsString) (ending : Ending).

(** *** The parts of [send] that both files share, given the body of the
    loop over lines. *)
Module Client.
Section Client.
Variable on_line : Turn -> JsString -> Turn.

(** [for (const line of decoder.decode(value).split('\n'))] *)
Definition on_chunk (t : Turn) (chunk : JsString) : Turn :=
  fold_left on_line (split newline chunk) t.

(** After the loop: the status is set to done. *)
Definition on_close (t : Turn) : Turn :=
  set_status_innerHTML (js "Complete") (set_status_className (js "status done") t).

(** The outer [catch]. *)
Definition on_error (t : Turn) : Turn :=
  set_status_innerHTML (js "Failed to connect. Is the backend running?")
    (set_status_className (js "status error") t).

(** [send] up to its first [await]. *)
Definition new_turn (prompt : JsString) : Turn :=
  mkTurn prompt (js "status active") (spinner (js "Thinking...")) (Markup []) [] true.

Definition send_start (prompt : JsString) (p : Page) : Page :=
  mkPage true true (input_value p) (chat p ++ [new_turn prompt]).

(** The call that owns the [i]-th turn goes on, if it is suspended. *)
Fixpoint alter (f : Turn -> Turn) (i : nat) (l : list Turn) : list Turn :=
  match l, i with
  | [], _ => []
  | t :: l', O => (if awaiting t then f t else t) :: l'
  | t :: l', S j => t :: alter f j l'
  end.

Definition resume (f : Turn -> Turn) (i : nat) (p : Page) : Page :=
  mkPage (busy p) (btn_disabled p) (input_value p) (alter f i (chat p)).

(** The end of [send]: [busy = false; btn.disabled = false]. *)
Definition unlock (p : Page) : Page :=
  mkPage false false (input_value p) (chat p).

Definition is_awaiting (i : nat) (p : Page) : bool :=
  match nth_error (chat p) i with
  | Some t => awaiting t
  | None => false
  end.

(** [reader.read()] resolves with a chunk. *)
Definition read_value (i : nat) (chunk : JsString) (p : Page) : Page :=
  resume (fun t => on_chunk t chunk) i p.

(** [reader.read()] resolves with [done]: leave the loop and finish. *)
Definition read_done (i : nat) (p : Page) : Page :=
  if is_awaiting i p
  then unlock (resume (fun t => set_awaiting false (on_close t)) i p)
  else p.

(** [fetch] or [reader.read()] rejects: the [catch], then finish. *)
Definition rejected (i : nat) (p : Page) : Page :=
  if is_awaiting i p
  then unlock (resume (fun t => set_awaiting false (on_error t)) i p)
  else p.

(** A whole call of [send], from its start to its return, on a network
    request that ends. *)
Definition send (prompt : JsString) (net : Network) (p : Page) : Page :=
  let i := List.length (chat p) in
  let p := send_start prompt p in
  match net with
  | ConnectFailed => rejected i p
  | Streamed chunks ending =>
    let p := fold_left (fun p chunk => read_value i chunk p) chunks p in
    match ending with
    | Closed => read_done i p
    | ReadRejected => rejected i p
    end
  end.

(** The [submit] listener of the form. *)
Definition submit_handler (p : Page) : Page :=
  let prompt := trim (input_value p) in
  match prompt with
  | [] => p
  | _ :: _ =>
    if busy p then p
    else send_start prompt (mkPage (busy p) (btn_disabled p) [] (chat p))
  end.

Record KeyboardEvent := mkKey { key : JsString; shiftKey : bool }.

(** The [keydown] listener of the input, Enter to send: the page after it,
    and whether it called [e.preventDefault()]. *)
Definition keydown_handler (e : KeyboardEvent) (p : Page) : Page * bool :=
  if Js.eqb (key e) (js "Enter") && negb (shiftKey e) && negb (busy p)
  then (submit_handler p, true)
  else (p, false).

(** What can happen to the page, one task of the event loop at a time. *)
Inductive Action :=
| UserInput (value : JsString)
| Keydown (e : KeyboardEvent)
| Submit
| ReadValue (i : nat) (chunk : JsString)
| ReadDone (i : nat)
| Rejected (i : nat).

Definition step (p : Page) (a : Action) : Page :=
  match a with
  | UserInput value => mkPage (busy p) (btn_disabled p) value (chat p)
  | Keydown e => fst (keydown_handler e p)
  | Submit => submit_handler p
  | ReadValue i chunk => read_value i chunk p
  | ReadDone i => read_done i p
  | Rejected i => rejected i p
  end.

Definition run (actions : list Action) (p : Page) : Page :=
  fold_left step actions p.

(** The calls of [send] that have started and not returned. *)
Definition in_flight (p : Page) : nat :=
  List.length (filter awaiting (chat p)).

End Client.
End Client.

(** *** [frontend/app.js] *)
Module AppJs.
Section AppJs.
Context `{Host}.

(** The body of the inner [try]; [None] when it throws. *)
Definition try_line (t : Turn) (line : JsString) : option Turn :=
  data <- JSON_parse (slice 6 line) ;;
  type <- get data (js "type") ;;
  if strict_eq_str type (js "status") then
    content <- get data (js "content") ;;
    c <- ToString content ;;
    Some (set_status_innerHTML (spinner c) t)
  else if strict_eq_str type (js "text") then
    content <- get data (js "content") ;;
    c <- ToString content ;;
    let text := text t ++ c in
    Some (set_response (PlainText text) (set_text text t))
  else if strict_eq_str type (js "done") then
    Some (set_status_innerHTML (js "Complete")
            (set_status_className (js "status done") t))
  else Some t.

Definition on_line (t : Turn) (line : JsString) : Turn :=
  if negb (startsWith (js "data: ") line) then t
  else match try_line t line with
       | Some t' => t'
       | None => t
       end.

Definition send := Client.send on_line.

End AppJs.
End AppJs.

(** *** The later revision, which renders the answer with [formatMarkdown] *)
Module Revised.
Section Revised.
Context `{Host}.

Definition try_line (t : Turn) (line : JsString) : option Turn :=
  data <- JSON_parse (slice 6 line) ;;
  type <- get data (js "type") ;;
  if strict_eq_str type (js "status") then
    content <- get data (js "content") ;;
    c <- ToString content ;;
    Some (set_status_innerHTML (spinner c) t)
  else if strict_eq_str type (js "text") then
    content <- get data (js "content") ;;
    c <- ToString content ;;
    let text := text t ++ c in
    Some (set_response (Markup (formatMarkdown text)) (set_text text t))
  else if strict_eq_str type (js "done") then
    Some (set_response (Markup (formatMarkdown (text t)))
            (set_status_innerHTML (js "Complete")
               (set_status_className (js "status done") t)))
  else Some t.

Definition on_line (t : Turn) (line : JsString) : Turn :=
  if negb (startsWith (js "data: ") line) then t
  else match try_line t line with
       | Some t' => t'
       | None => t
       end.

Definition send := Client.send on_line.

End Revised.
End Revised.

(** *** Both files at once *)

Inductive Version := app_js | revised.

Fixpoint filter_map {A B : Type} (f : A -> option B) (l : list A) : list B :=
  match l with
  | [] => []
  | a :: l' =>
    match f a with
    | Some b => b :: filter_map f l'
    | None => filter_map f l'
    end
  end.

Section Versions.
Context `{Host}.

Definition on_line_in (v : Version) : Turn -> JsString -> Turn :=
  match v with
  | app_js => AppJs.on_line
  | revised => Revised.on_line
  end.

Definition send_in (v : Version) : JsString -> Network -> Page -> Page :=
  match v with
  | app_js => AppJs.send
  | revised => Revised.send
  end.

Definition run_in (v : Version) : list Client.Action -> Page -> Page :=
  Client.run (on_line_in v).

(** The loop over the lines of the chunks of a stream. *)
Definition on_lines (v : Version) (lines : list JsString) (t : Turn) : Turn :=
  fold_left (on_line_in v) lines t.

Definition lines_of (chunks : list JsString) : list JsString :=
  flat_map (split newline) chunks.

(** The event a line delivers: the parsed payload of a data line. *)
Definition received (line : JsString) : option JsValue :=
  if startsWith (js "data: ") line then JSON_parse (slice 6 line) else None.

Definition events (lines : list JsString) : list JsValue :=
  filter_map received lines.

(** [data.type === lit] *)
Definition type_is (lit : JsString) (data : JsValue) : bool :=
  match get data (js "type") with
  | Some type => strict_eq_str type lit
  | None => false
  end.

(** [data.content] as a string. *)
Definition content (data : JsValue) : option JsString :=
  c <- get data (js "content") ;; ToString c.

(** The content of a text event. *)
Definition text_content (data : JsValue) : option JsString :=
  if type_is (js "text") data then content data else None.

(** What an event writes into the status element. *)
Definition status_written (data : JsValue) : option JsString :=
  if type_is (js "status") data then option_map spinner (content data)
  else if type_is (js "done") data then Some (js "Complete")
  else None.

(** The content of a status event. *)
Definition status_content (data : JsValue) : option JsString :=
  if type_is (js "status") data then content data else None.

(** How the response element shows an answer. *)
Definition shows (v : Version) (r : Content) (answer : JsString) : Prop :=
  match v with
  | app_js => r = PlainText answer \/ (r = Markup [] /\ answer = [])
  | revised => r = Markup (formatMarkdown answer)
  end.

(** The turn of a call of [send] when the call returns. *)
Definition turn_after (v : Version) (prompt : JsString) (net : Network) : Turn :=
  let t := Client.new_turn prompt in
  set_awaiting false
    match net with
    | ConnectFailed => Client.on_error t
    | Streamed chunks Closed => Client.on_close (on_lines v (lines_of chunks) t)
    | Streamed chunks ReadRejected => Client.on_error (on_lines v (lines_of chunks) t)
    end.

End Versions.

Section Effects.
Context `{Host}.

(** The effect of one event on a turn. *)
Definition effect (v : Version) (t : Turn) (data : JsValue) : Turn :=
  if type_is (js "status") data then
    match content data with
    | Some c => set_status_innerHTML (spinner c) t
    | None => t
    end
  else if type_is (js "text") data then
    match content data with
    | Some c =>
      let answer := text t ++ c in
      set_response
        match v with
        | app_js => PlainText answer
        | revised => Markup (formatMarkdown answer)
        end (set_text answer t)
    | None => t
    end
  else if type_is (js "done") data then
    let t' := set_status_innerHTML (js "Complete")
                (set_status_className (js "status done") t) in
    match v with
    | app_js => t'
    | revised => set_response (Markup (formatMarkdown (text t))) t'
    end
  else t.

End Effects.

(** Two turns that agree on everything but the response element. *)
Definition same_but_response (a b : Turn) : Prop :=
  userMsg a = userMsg b /\ status_className a = status_className b
  /\ status_innerHTML a = status_innerHTML b /\ text a = text b
  /\ awaiting a = awaiting b.

(** The lock: the calls in flight are one when [busy] is set, none otherwise. *)
Definition locked (p : Page) : Prop :=
  Client.in_flight p = if busy p then 1%nat else 0%nat.

(** ** A reference host

    A parser for the fragment of JSON without fractions, exponents and
    integers beyond 2^53, and the printing of the numbers it produces.  It
    serves to run the client on concrete lines; no theorem depends on it. *)
Module Reference.

Definition backslash : N := 92.

Definition is_ws (c : N) : bool :=
  (c =? 32) || (c =? 9) || (c =? 10) || (c =? 13).

Fixpoint skip_ws (s : JsString) : JsString :=
  match s with
  | [] => []
  | c :: s' => if is_ws c then skip_ws s' else s
  end.

Definition is_digit (c : N) : bool := (48 <=? c) && (c <=? 57).

Definition hex (c : N) : option N :=
  if is_digit c then Some (c - 48)
  else if (65 <=? c) && (c <=? 70) then Some (c - 55)
  else if (97 <=? c) && (c <=? 102) then Some (c - 87)
  else None.

(** The unit a two-character escape stands for. *)
Definition escape (c : N) : option N :=
  if c =? dquote then Some dquote
  else if c =? backslash then Some backslash
  else if c =? 47 then Some 47
  else if c =? 98 then Some 8
  else if c =? 102 then Some 12
  else if c =? 110 then Some 10
  else if c =? 114 then Some 13
  else if c =? 116 then Some 9
  else None.

(** The characters of a string after its opening quote, and what follows
    the closing quote. *)
Fixpoint parse_chars (fuel : nat) (s : JsString) : option (JsString * JsString) :=
  match fuel with
  | O => None
  | S fuel =>
    match s with
    | [] => None
    | c :: s1 =>
      if c =? dquote then Some ([], s1)
      else if c =? backslash then
        match s1 with
        | [] => None
        | e :: s2 =>
          if e =? 117 then
            match s2 with
            | a :: b :: c :: d :: s3 =>
              a <- hex a ;; b <- hex b ;; c <- hex c ;; d <- hex d ;;
              r <- parse_chars fuel s3 ;;
              Some ((((a * 16 + b) * 16 + c) * 16 + d) :: fst r, snd r)
            | _ => None
            end
          else
            x <- escape e ;;
            r <- parse_chars fuel s2 ;;
            Some (x :: fst r, snd r)
        end
      else if c <? 32 then None
      else r <- parse_chars fuel s1 ;; Some (c :: fst r, snd r)
    end
  end.

Definition parse_string (s : JsString) : option (JsString * JsString) :=
  match s with
  | c :: s' => if c =? dquote then parse_chars (List.length s') s' else None
  | [] => None
  end.

Definition binary64 (z : Z) (negative : bool) : spec_float :=
  binary_normalize 53 1024 z 0 negative.

Definition parse_number (s : JsString) : option (spec_float * JsString) :=
  let (negative, s1) :=
    match s with
    | c :: s' => if c =? 45 then (true, s') else (false, s)
    | [] => (false, s)
    end in
  let (ds, rest) := span is_digit s1 in
  let n := fold_left (fun acc d => acc * 10 + (d - 48)) ds 0 in
  let more :=
    match rest with
    | c :: _ => (c =? 46) || (c =? 101) || (c =? 69)
    | [] => false
    end in
  match ds with
  | [] => None
  | d :: ds' =>
    if (d =? 48) && negb (Nat.eqb (List.length ds') 0) then None
    else if more || (2 ^ 53 <? n) then None
    else Some (binary64 (if negative then Z.opp (Z.of_N n) else Z.of_N n) negative, rest)
  end.

(** A later member with the same name replaces the earlier one. *)
Fixpoint set_prop (k : JsString) (v : JsValue) (props : list (JsString * JsValue))
  : list (JsString * JsValue) :=
  match props with
  | [] => [(k, v)]
  | (k', v') :: props' =>
    if Js.eqb k' k then (k, v) :: props' else (k', v') :: set_prop k v props'
  end.

Fixpoint parse_value (fuel : nat) (s : JsString) : option (JsValue * JsString) :=
  match fuel with
  | O => None
  | S fuel =>
    match skip_ws s with
    | [] => None
    | c :: s' =>
      if c =? dquote then
        r <- parse_string (c :: s') ;; Some (Str (fst r), snd r)
      else if c =? 91 then
        match skip_ws s' with
        | d :: s'' =>
          if d =? 93 then Some (Arr [], s'')
          else r <- parse_elements fuel (d :: s'') ;; Some (Arr (fst r), snd r)
        | [] => None
        end
      else if c =? 123 then
        match skip_ws s' with
        | d :: s'' =>
          if d =? 125 then Some (Obj [], s'')
          else r <- parse_members fuel (d :: s'') [] ;; Some (Obj (fst r), snd r)
        | [] => None
        end
      else if startsWith (js "true") (c :: s') then Some (Bool true, skipn 3 s')
      else if startsWith (js "false") (c :: s') then Some (Bool false, skipn 4 s')
      else if startsWith (js "null") (c :: s') then Some (Null, skipn 3 s')
      else r <- parse_number (c :: s') ;; Some (Number (fst r), snd r)
    end
  end
with parse_elements (fuel : nat) (s : JsString) : option (list JsValue * JsString) :=
  match fuel with
  | O => None
  | S fuel =>
    r <- parse_value fuel s ;;
    match skip_ws (snd r) with
    | c :: s' =>
      if c =? 93 then Some ([fst r], s')
      else if c =? comma then
        rs <- parse_elements fuel s' ;; Some (fst r :: fst rs, snd rs)
      else None
    | [] => None
    end
  end
with parse_members (fuel : nat) (s : JsString) (acc : list (JsString * JsValue))
  : option (list (JsString * JsValue) * JsString) :=
  match fuel with
  | O => None
  | S fuel =>
    k <- parse_string (skip_ws s) ;;
    match skip_ws (snd k) with
    | c :: s' =>
      if c =? 58 then
        r <- parse_value fuel s' ;;
        let acc := set_prop (fst k) (fst r) acc in
        match skip_ws (snd r) with
        | d :: s'' =>
          if d =? 125 then Some (acc, s'')
          else if d =? comma then parse_members fuel s'' acc
          else None
        | [] => None
        end
      else None
    | [] => None
    end
  end.

Definition parse (s : JsString) : option JsValue :=
  r <- parse_value (S (List.length s)) s ;;
  match skip_ws (snd r) with
  | [] => Some (fst r)
  | _ :: _ => None
  end.

Definition decimal (n : N) : JsString :=
  js (DecimalString.NilZero.string_of_uint (N.to_uint n)).

(** The decimal form of an integer below 10^21; the reference parser
    produces no other finite number. *)
Definition toString (x : spec_float) : JsString :=
  match x with
  | S754_zero _ => js "0"
  | S754_infinity false => js "Infinity"
  | S754_infinity true => js "-Infinity"
  | S754_nan => js "NaN"
  | S754_finite s m e =>
    (if s then js "-" else []) ++
    decimal (match e with
             | Zneg k => N.shiftr (Npos m) (Npos k)
             | _ => N.shiftl (Npos m) (Z.to_N e)
             end)
  end.

#[export] Instance host : Host :=
  {| Number_toString := toString; JSON_parse := parse |}.

End Reference.

(** ** The orchestrator

    The orchestration loop of the back end ([backend/agent]), of which the
    client sources hold no code, as the specification describes it. *)
Module Orchestrator.

(** Modelled from the spec: the ToolInvocation of section 3, a tool name
    and its arguments; the back end's own type is missing. *)
Record ToolInvocation := mkInvocation {
  tool : string;
  arguments : list (string * string)
}.

(** Modelled from the spec: what a tool returns (sections 3 and 6),
    success with a payload or failure with a reason; a timeout and a
    credential failure are failures (sections 5 and 7). *)
Inductive Outcome :=
| success (payload : string)
| failure (reason : string).

(** Modelled from the spec: what the Executor records for a step
    (sections 4.3 and 7): the outcome of the tool, or that the step was
    not run because a step it depends on did not succeed. *)
Inductive StepOutcome :=
| ran (o : Outcome)
| SkippedDueToDependencyFailure.

(** Modelled from the spec: the ToolResult of section 3. *)
Record ToolResult := mkResult {
  invocation : ToolInvocation;
  outcome : StepOutcome
}.

(** Modelled from the spec: a step of an execute plan, the invocation
    and the marks of section 4.3: the positions in the plan of the
    earlier steps that are hard dependencies of this one. *)
Record Step := mkStep {
  call : ToolInvocation;
  hard_dependencies : list nat
}.

(** Modelled from the spec: the Plan of section 3, a tagged variant with
    exactly one branch. *)
Inductive Plan :=
| clarify (question : string)
| converse (answer : string)
| execute (steps : list Step).

(** Modelled from the spec: the ConversationMemory of section 3, which the
    planner reads.  Its updates are not part of this model. *)
Record ConversationMemory := mkMemory {
  pending_request : option string;
  last_context : option (list ToolResult)
}.

(** Modelled from the spec: a registered tool (sections 3, 4.1 and 4.3):
    its description, the validation and conversion of arguments against
    its schema ([None] when they do not fit), and its invocation. *)
Record Tool := mkTool {
  description : string;
  validate : list (string * string) -> option (list (string * string));
  invoke : list (string * string) -> Outcome
}.

(** Modelled from the spec: what the orchestrator emits during a turn
    (sections 5 and 6): a step-start notification (a status event on the
    wire), the clarification question, the final answer (a text event),
    the single event that reports an abort, and the completion marker
    (the done event). *)
Inductive Event :=
| step_start (step : ToolInvocation)
| question_event (question : string)
| answer_event (text : string)
| failure_event
| done_event.

(** Modelled from the spec: how a run of the Executor ends: with the
    results of all steps, with an unknown tool (fatal to the request,
    sections 4.1 and 7), or with the caller found gone (section 5). *)
Inductive Run :=
| Finished (results : list ToolResult)
| UnknownTool
| Disconnected.

(** Modelled from the spec: the caller of section 5, by the number of
    events it still receives before it disconnects; [None] for a caller
    that stays.  The disconnect is detected when an event is to be
    emitted and the caller is gone. *)
Definition Caller := option nat.

(** Modelled from the spec: the emission of one event (section 5): the
    caller that remains, or [None] when the caller is found gone. *)
Definition emit (c : Caller) : option Caller :=
  match c with
  | None => Some None
  | Some O => None
  | Some (S k) => Some (Some k)
  end.

(** Modelled from the spec: the emission of the closing events of a turn
    (section 5): those that still reach the caller. *)
Definition emit_all (c : Caller) (events : list Event) : list Event :=
  match c with
  | None => events
  | Some k => firstn k events
  end.

(** Modelled from the spec: a step succeeded when its tool ran and
    returned success (section 6). *)
Definition succeeded (r : ToolResult) : bool :=
  match outcome r with
  | ran (success _) => true
  | _ => false
  end.


(** Modelled from the spec: a step is skipped when a step marked as its
    hard dependency did not succeed (sections 4.3 and 7); a mark that
    names no earlier step is ignored. *)
Definition blocked (results : list ToolResult) (step : Step) : bool :=
  existsb (fun i =>
             match nth_error results i with
             | Some r => negb (succeeded r)
             | None => false
             end) (hard_dependencies step).

(** Modelled from the spec: one step on its tool (section 4.3): the
    arguments are validated and converted against the tool's schema, the
    tool is invoked on the validated arguments and its outcome captured;
    arguments that do not fit are a failure of the step. *)
Definition attempt (t : Tool) (i : ToolInvocation) : Outcome :=
  match validate t (arguments i) with
  | Some args => invoke t args
  | None => failure "invalid arguments"
  end.

Section Orchestrator.
(** The registry. *)
Variable lookup : string -> option Tool.
(** The reasoning collaborator; [None] is PlanningError or ComposeError. *)
Variable infer_plan : string -> ConversationMemory -> option Plan.
Variable compose_response : list ToolResult -> option string.

(** Modelled from the spec: the Executor of section 4.3, whose code is
    missing, on the caller, the results so far and the steps left.
    Steps run one after the other in the given order.  A step whose hard
    dependency did not succeed is not started: it is recorded as skipped
    and the next step is taken.  Otherwise the tool is looked up (an
    unknown tool ends the run), the start of the step is announced (a
    caller found gone ends the run: no further step is started and no
    further event emitted, section 5), the arguments are validated
    against the tool's schema and the tool is invoked; arguments that do
    not fit and a failure of the tool are recorded as the step's outcome
    and do not stop the later steps. *)
Fixpoint run_steps (c : Caller) (results : list ToolResult) (steps : list Step)
  : list Event * Caller * Run :=
  match steps with
  | [] => ([], c, Finished results)
  | step :: rest =>
    if blocked results step then
      run_steps c (results ++ [mkResult (call step) SkippedDueToDependencyFailure]) rest
    else
      match lookup (tool (call step)) with
      | None => ([], c, UnknownTool)
      | Some t =>
        match emit c with
        | None => ([], c, Disconnected)
        | Some c' =>
          let o := attempt t (call step) in
          let '(events, c'', r) :=
            run_steps c' (results ++ [mkResult (call step) (ran o)]) rest in
          (step_start (call step) :: events, c'', r)
        end
      end
  end.

(** Modelled from the spec: the event stream of one turn of the
    Orchestrator of sections 4.5, 5 and 7, whose code is missing, as it
    reaches the caller.  Events are emitted in the order: clarification
    question, or the step starts in step order, then the final answer,
    then the completion marker.  An abort (malformed plan, execute plan
    without steps, unknown tool, collaborator error) emits one failure
    event before the completion marker.  Nothing is emitted once the
    caller is found gone. *)
Definition handle (c : Caller) (utterance : string) (memory : ConversationMemory)
  : list Event :=
  match infer_plan utterance memory with
  | None => emit_all c [failure_event; done_event]
  | Some (clarify q) => emit_all c [question_event q; done_event]
  | Some (converse a) => emit_all c [answer_event a; done_event]
  | Some (execute []) => emit_all c [failure_event; done_event]
  | Some (execute steps) =>
    match run_steps c [] steps with
    | (events, _, Disconnected) => events
    | (events, c', UnknownTool) => events ++ emit_all c' [failure_event; done_event]
    | (events, c', Finished results) =>
      match compose_response results with
      | None => events ++ emit_all c' [failure_event; done_event]
      | Some text => events ++ emit_all c' [answer_event text; done_event]
      end
    end
  end.

(** Modelled from the spec: the steps whose start a stream announces, in
    stream order (the step-start events of section 8). *)
Fixpoint started (events : list Event) : list ToolInvocation :=
  match events with
  | [] => []
  | step_start step :: events' => step :: started events'
  | _ :: events' => started events'
  end.


End Orchestrator.


End Orchestrator.

(** ** Concrete inputs *)

Module Examples.

Definition status_line : JsString :=
  jsq "data: {'type': 'status', 'content': 'Searching emails...'}".
Definition question_line : JsString :=
  jsq "data: {'type': 'question', 'content': 'What is the email address of Sarah?'}".
Definition text_line : JsString :=
  jsq "data: {'type': 'text', 'content': 'Found 3 emails'}".
Definition more_text_line : JsString :=
  jsq "data: {'type': 'text', 'content': ' from school.'}".
Definition done_line : JsString :=
  jsq "data: {'type': 'done', 'content': ''}".
Definition broken_line : JsString :=
  jsq "data: {'type': 'text', 'content': 'Fou".

Definition prompt : JsString := js "Any emails from school?".
Definition turn0 : Turn := Client.new_turn prompt.

(** The page after the user has typed a prompt, submitted it, and typed
    the next one while the answer is awaited. *)
Definition waiting : Page :=
  @run_in Reference.host app_js
    [Client.UserInput prompt; Client.Submit; Client.UserInput (js "And from work?")]
    initial.

(** A stream in two chunks, each event followed by an empty line. *)
Definition stream : list JsString :=
  [status_line ++ [newline; newline] ++ text_line ++ [newline; newline];
   more_text_line ++ [newline; newline] ++ done_line ++ [newline; newline]].

Definition dentist : Orchestrator.ToolInvocation :=
  Orchestrator.mkInvocation "create_calendar_event"
    [("title", "dentist"); ("start", "tomorrow 15:00"); ("end", "tomorrow 16:00")]%string.

Definition invite : Orchestrator.ToolInvocation :=
  Orchestrator.mkInvocation "send_email"
    [("to", "john@test.com"); ("subject", "dentist")]%string.

(** A registry with a calendar tool that is rate limited and a mail tool
    that works. *)
Definition lookup (name : string) : option Orchestrator.Tool :=
  if String.eqb name "create_calendar_event"
  then Some (Orchestrator.mkTool "Add calendar event" (fun args => Some args)
               (fun _ => Orchestrator.failure "rate limited"))
  else if String.eqb name "send_email"
  then Some (Orchestrator.mkTool "Send email" (fun args => Some args)
               (fun _ => Orchestrator.success "sent"))
  else None.

(** Create the event, then mail the invitation, which needs the event. *)
Definition infer_plan (utterance : string) (memory : Orchestrator.ConversationMemory)
  : option Orchestrator.Plan :=
  Some (Orchestrator.execute
          [Orchestrator.mkStep dentist []; Orchestrator.mkStep invite [0%nat]]).

(** The same two steps without the dependency mark. *)
Definition infer_plan_unmarked (utterance : string) (memory : Orchestrator.ConversationMemory)
  : option Orchestrator.Plan :=
  Some (Orchestrator.execute
          [Orchestrator.mkStep dentist []; Orchestrator.mkStep invite []]).

Definition compose_response (results : list Orchestrator.ToolResult) : option string :=
  Some "The calendar is rate limited; no invitation was sent."%string.

End Examples.

Import Examples.

(** ** The rest of the page *)

(** [ToBoolean]: whether a value is truthy. *)
Definition ToBoolean (v : JsValue) : bool :=
  match v with
  | Undefined | Null => false
  | Bool b => b
  | Number (S754_zero _) => false
  | Number S754_nan => false
  | Number _ => true
  | Str [] => false
  | Str (_ :: _) => true
  | Arr _ | Obj _ => true
  end.

(** A length or a count as a number. *)
Definition Number_of_nat (n : nat) : spec_float :=
  binary_normalize 53 1024 (Z.of_nat n) 0 false.

(** *** The Google card (both files) *)
Module Google.

(** The classes of [#google-card], and the class and content of
    [#google-status]. *)
Record Card := mkCard {
  card_classList : list JsString;
  google_status_className : JsString;
  google_status_innerHTML : JsString
}.

(** [classList.add(token)] *)
Definition classList_add (token : JsString) (l : list JsString) : list JsString :=
  if existsb (Js.eqb token) l then l else l ++ [token].

(** The [message] listener of the window, on the data of the message. *)
Definition message_listener (data : JsValue) (g : Card) : Card :=
  match get data (js "type") with
  | None => g
  | Some type =>
    if strict_eq_str type (js "google-auth-success") then
      mkCard (classList_add (js "connected") (card_classList g))
        (js "card-status connected")
        (jsq "<span class='dot'></span> Connected")
    else g
  end.

(** [checkConnection], on the answer of [/auth/status]: [None] when [fetch]
    or [res.json()] rejects; the [catch] swallows every failure. *)
Definition checkConnection (answer : option JsValue) (g : Card) : Card :=
  match answer with
  | None => g
  | Some data =>
    match get data (js "connected") with
    | None => g
    | Some connected =>
      if ToBoolean connected then
        mkCard (classList_add (js "connected") (card_classList g))
          (js "card-status connected")
          (jsq "<span class='dot'></span> Connected")
      else g
    end
  end.

(** What can happen to the card. *)
Inductive Event :=
| Message (data : JsValue)
| Checked (answer : option JsValue).

Definition step (g : Card) (e : Event) : Card :=
  match e with
  | Message data => message_listener data g
  | Checked answer => checkConnection answer g
  end.

(** An event that reports a connection. *)
Definition reports (e : Event) : bool :=
  match e with
  | Message data =>
    match get data (js "type") with
    | Some type => strict_eq_str type (js "google-auth-success")
    | None => false
    end
  | Checked (Some data) =>
    match get data (js "connected") with
    | Some connected => ToBoolean connected
    | None => false
    end
  | Checked None => false
  end.

Definition shown_connected (g : Card) : Card :=
  mkCard (classList_add (js "connected") (card_classList g))
    (js "card-status connected")
    (jsq "<span class='dot'></span> Connected").

End Google.

(** *** The school settings (later revision) *)
Module Settings.

(** The two input fields, and the class and content of [#school-status]. *)
Record Panel := mkPanel {
  school_input : JsString;
  teachers_input : JsString;
  school_status_className : JsString;
  school_status_innerHTML : JsString
}.

(** The body that [saveSettings] posts. *)
Record Body := mkBody {
  school_name : JsString;
  teacher_names : list JsString
}.

(** [teachersInput ? teachersInput.split(',').map(t => t.trim()).filter(t => t) : []] *)
Definition teacherNames (teachersInput : JsString) : list JsString :=
  match teachersInput with
  | [] => []
  | _ :: _ =>
    filter (fun t => match t with [] => false | _ :: _ => true end)
      (map trim (split comma teachersInput))
  end.

Section Settings.
Context `{Host}.

(** [`<span class="dot"></span> ${schoolName || 'No school'}${teacherCount
    ? ` • ${teacherCount} teacher(s)` : ''}`] *)
Definition status_text (schoolName : JsString) (teacherCount : nat) : JsString :=
  jsq "<span class='dot'></span> "
  ++ match schoolName with
     | [] => js "No school"
     | _ :: _ => schoolName
     end
  ++ match teacherCount with
     | O => []
     | S _ =>
       js " " ++ [bullet] ++ js " "
       ++ Number_toString (Number_of_nat teacherCount) ++ js " teacher(s)"
     end.

(** [saveSettings]: the body posted, and the panel after the answer
    ([None] when [fetch] or [res.json()] rejects, which is only logged). *)
Definition saveSettings (answer : option JsValue) (s : Panel) : Body * Panel :=
  let schoolName := trim (school_input s) in
  let teachersInput := trim (teachers_input s) in
  let names := teacherNames teachersInput in
  (mkBody schoolName names,
   match answer with
   | None => s
   | Some data =>
     match get data (js "success") with
     | None => s
     | Some success =>
       if ToBoolean success then
         mkPanel (school_input s) (teachers_input s)
           (js "card-status connected")
           (status_text schoolName (List.length names))
       else s
     end
   end).

End Settings.

(** A name as [saveSettings] posts it: not empty, trimmed, without comma. *)
Definition clean (name : JsString) : Prop :=
  name <> [] /\ trim name = name /\ ~ In comma name.

End Settings.

(** *** Notions used to state what the client keeps *)

(** A turn whose call of [send] has returned shows one of the two final
    statuses. *)
Definition final_status (t : Turn) : Prop :=
  (status_className t = js "status done" /\ status_innerHTML t = js "Complete")
  \/ (status_className t = js "status error"
      /\ status_innerHTML t = js "Failed to connect. Is the backend running?").

(** A text of white space only. *)
Definition blank (s : JsString) : bool := forallb isWhiteSpace s.

(** A text that does not start with white space. *)
Definition starts_clean (s : JsString) : Prop :=
  match s with
  | [] => True
  | c :: _ => isWhiteSpace c = false
  end.

(** A user message as the submit listener passes it to [send]. *)
Definition sent_prompt (t : Turn) : Prop :=
  userMsg t <> [] /\ trim (userMsg t) = userMsg t.

(** What the client keeps on the page: the earlier turns have returned and
    show a final status, every user message is a trimmed, non-empty
    prompt, and the last turn is awaited exactly when [busy] is set. *)
Definition orderly (p : Page) : Prop :=
  Forall sent_prompt (chat p)
  /\ exists past,
       Forall (fun t => awaiting t = false /\ final_status t) past
       /\ ((busy p = false /\ chat p = past)
           \/ (busy p = true /\ exists t, awaiting t = true /\ chat p = past ++ [t])).

(** The two styled spans that [formatMarkdown] writes, whole. *)
Definition bullet_span : JsString := span_bullet ++ [bullet] ++ span_close.
Definition warning_span : JsString := span_warning ++ warning ++ span_close.

(** The words of the output that are complete in themselves. *)
Definition inline_words : list JsString :=
  [warning_span; bullet_span; br] ++ entities.

(** A text in which the strong tags alternate, opening first and closing
    last, around plain units and words of [I]; the flag tells whether a
    strong element is open at the start of the text. *)
Inductive nesting (I : list JsString) : bool -> JsString -> Prop :=
| nesting_nil : nesting I false []
| nesting_unit d c s : plain c -> nesting I d s -> nesting I d (c :: s)
| nesting_word d w s : In w I -> nesting I d s -> nesting I d (w ++ s)
| nesting_open s : nesting I true s -> nesting I false (strong_open ++ s)
| nesting_close s : nesting I false s -> nesting I true (strong_close ++ s).

(** The units that [formatMarkdown] treats specially. *)
Definition markdown_special (c : N) : bool :=
  (c =? amp) || (c =? lt) || (c =? gt) || (c =? star) || (c =? newline)
  || (c =? bullet) || (c =? 9888).

(** *** What the markup of [formatMarkdown] stands for *)

(** An entity and the unit it stands for. *)
Definition entity_rules : list (JsString * JsString) :=
  [(js "&amp;", [amp]); (js "&lt;", [lt]); (js "&gt;", [gt])].

(** Every word that [formatMarkdown] writes, with the source text it
    stands for. *)
Definition markdown_rules : list (JsString * JsString) :=
  (warning_span, warning) :: (bullet_span, [bullet]) :: (br, [newline])
  :: (strong_open, [star; star]) :: (strong_close, [star; star])
  :: entity_rules.

(** The words written by the time the bold pass is done. *)
Definition strong_rules : list (JsString * JsString) :=
  (strong_open, [star; star]) :: (strong_close, [star; star]) :: entity_rules.

(** No word of [R] starts another one, and no word has two meanings: the
    words of a markup can be told apart from its head. *)
Definition unambiguousb (R : list (JsString * JsString)) : bool :=
  forallb (fun r1 =>
    forallb (fun r2 =>
      negb (startsWith (fst r1) (fst r2))
      || (Js.eqb (fst r1) (fst r2) && Js.eqb (snd r1) (snd r2))) R) R.

(** The units that reach the output as they are. *)
Definition copied (c : N) : Prop := plain c /\ c <> newline /\ c <> bullet.

(** [renders R P html src]: the markup [html] is the text [src] in which
    some stretches are replaced by the word that a rule of [R] gives for
    them, and every other unit satisfies [P] and is copied.  So every unit
    of [html] is either a copied unit of [src] or part of a word that
    stands for a definite stretch of [src], and [html] is all of [src]. *)
Inductive renders (R : list (JsString * JsString)) (P : N -> Prop)
  : JsString -> JsString -> Prop :=
| renders_nil : renders R P [] []
| renders_unit c html src :
    P c -> renders R P html src -> renders R P (c :: html) (c :: src)
| renders_word w x html src :
    In (w, x) R -> renders R P html src -> renders R P (w ++ html) (x ++ src).



(** *** More concrete inputs *)
Module MoreExamples.

(** The first prompt answered, the second one submitted and awaited. *)
Definition second_turn : Page :=
  @run_in Reference.host revised
    [Client.UserInput Examples.prompt; Client.Submit;
     Client.ReadValue 0 (Examples.text_line ++ [newline]);
     Client.ReadDone 0;
     Client.UserInput (js "  And from work? "); Client.Submit]
    initial.

Definition first_answer : Turn :=
  mkTurn Examples.prompt (js "status done") (js "Complete")
    (Markup (js "Found 3 emails")) (js "Found 3 emails") false.

Definition second_question : Turn := Client.new_turn (js "And from work?").

(** A text event cut in two by a chunk boundary. *)
Definition cut_head : JsString := jsq "data: {'type': 'text', 'con".
Definition cut_tail : JsString := jsq "tent': 'Found 3 emails'}".


(** A text event with markdown in it. *)
Definition bold_line : JsString :=
  jsq "data: {'type': 'text', 'content': '**3** emails from <school>'}".

(** The lines of two chunks, each event followed by an empty line. *)
Definition whole_lines : list (list JsString) :=
  [[Examples.status_line; []; Examples.text_line; []];
   [Examples.more_text_line; []; bold_line; []; Examples.done_line; []]].

Definition card : Google.Card :=
  Google.mkCard [js "card"; js "connected"] (js "card-status") [].

Definition teachers : list JsString := [js "Ms. Lee"; js "Mr. O'Neil"; js "Dr. Who"].

Definition panel : Settings.Panel :=
  Settings.mkPanel (js " Oak Hill ") (js "Ms. Lee, Mr. O'Neil, Dr. Who") (js "card-status") [].

Definition empty_panel : Settings.Panel :=
  Settings.mkPanel (js " ") (js " , ,, ") (js "card-status") [].

Definition saved : JsValue := Obj [(js "success", Bool true)].

End MoreExamples.

(** * Properties *)

(** ** The scan of a global replace *)

Lemma replace_from_skip (m : Matcher) (k : nat) (s : JsString) :
  replace_from m k s = replace m (skipn k s).
Proof.
  revert k; induction s as [|c s IH]; intros [|k]; try reflexivity.
  simpl. apply IH.
Qed.

Lemma replace_cons (m : Matcher) (c : N) (s : JsString) :
  replace m (c :: s) =
  match m (c :: s) with
  | Some (r, n) => r ++ replace m (skipn n s)
  | None => c :: replace m s
  end.
Proof.
  unfold replace at 1. simpl.
  destruct (m (c :: s)) as [[r n]|]; [|reflexivity].
  now rewrite replace_from_skip.
Qed.

(** A word on which the pattern matches nowhere is copied. *)
Lemma replace_word (m : Matcher) (w s : JsString) :
  (forall x t, In x w -> m (x :: t) = None) ->
  replace m (w ++ s) = w ++ replace m s.
Proof.
  induction w as [|x w IH]; intros Hw; [reflexivity|].
  simpl. rewrite replace_cons, (Hw x (w ++ s)) by (left; reflexivity).
  f_equal. apply IH. intros y t Hy. apply Hw. now right.
Qed.

Lemma startsWith_app (p s : JsString) :
  startsWith p s = true -> s = p ++ skipn (List.length p) s.
Proof.
  revert s; induction p as [|x p IH]; intros [|y s] Hs; try easy.
  simpl in Hs. apply andb_prop in Hs as [Hxy Hs].
  apply N.eqb_eq in Hxy; subst y. simpl. f_equal. now apply IH.
Qed.

Lemma startsWith_cons (x y : N) (p s : JsString) :
  startsWith (x :: p) (y :: s) = (x =? y) && startsWith p s.
Proof. reflexivity. Qed.

Lemma literal_miss (p0 : N) (ptail rep : JsString) (x : N) (t : JsString) :
  x <> p0 -> literal (p0 :: ptail) rep (x :: t) = None.
Proof.
  intros Hx. unfold literal. simpl.
  destruct (N.eqb_spec p0 x); [congruence|reflexivity].
Qed.

Lemma bold_miss (x : N) (t : JsString) : x <> star -> bold (x :: t) = None.
Proof.
  intros Hx. unfold bold. rewrite startsWith_cons.
  destruct (N.eqb_spec star x); [congruence|reflexivity].
Qed.

(** A one-unit pattern is replaced unit by unit. *)
Lemma replace_unit (a : N) (rep s : JsString) :
  replace (literal [a] rep) s = flat_map (fun c => if c =? a then rep else [c]) s.
Proof.
  induction s as [|c s IH]; [reflexivity|].
  rewrite replace_cons. unfold literal at 1. simpl.
  rewrite (N.eqb_sym a c). destruct (c =? a); simpl; now rewrite IH.
Qed.

(** ** Token sequences *)

Section Tokens.
Variable A : list JsString.

Lemma tokens_app (a b : JsString) : tokens A a -> tokens A b -> tokens A (a ++ b).
Proof.
  induction 1 as [|c s Hc _ IH|w s Hw _ IH]; intros Hb; simpl.
  - exact Hb.
  - apply tokens_unit; auto.
  - rewrite <- app_assoc. apply tokens_word; auto.
Qed.

Lemma tokens_mono (B : list JsString) (s : JsString) :
  incl A B -> tokens A s -> tokens B s.
Proof.
  intros HAB. induction 1; [apply tokens_nil|apply tokens_unit|apply tokens_word]; auto.
Qed.

Lemma tokens_one (w : JsString) : In w A -> tokens A w.
Proof.
  intros Hw. rewrite <- (app_nil_r w). apply tokens_word; [exact Hw|apply tokens_nil].
Qed.

Lemma tokens_plain_inv (c : N) (s : JsString) :
  led A -> plain c -> tokens A (c :: s) -> tokens A s.
Proof.
  intros Hled Hc H. inversion H as [|c' s' _ Hs|w s0 Hw Hs Heq]; subst; [exact Hs|].
  destruct (Hled w Hw) as (c' & w' & -> & Hn). simpl in Heq.
  injection Heq as -> _. contradiction.
Qed.

Lemma tokens_drop_plain (p s : JsString) :
  led A -> Forall plain p -> tokens A (p ++ s) -> tokens A s.
Proof.
  intros Hled Hp. induction Hp as [|c p Hc _ IH]; simpl; intros H; [exact H|].
  apply IH. now apply tokens_plain_inv with c.
Qed.

End Tokens.

Lemma app_prefix (x : N) (w s g r : JsString) :
  ~ In x w -> w ++ s = g ++ x :: r -> exists g', g = w ++ g' /\ s = g' ++ x :: r.
Proof.
  revert g; induction w as [|y w IH]; intros g Hx Heq.
  - exists g. auto.
  - destruct g as [|z g]; simpl in Heq.
    + injection Heq as -> _. exfalso. apply Hx. now left.
    + injection Heq as -> Heq.
      destruct (IH g) as (g' & -> & ->); [intros Hin; apply Hx; now right|exact Heq|].
      exists g'. auto.
Qed.

(** A token sequence can be cut in front of a unit that occurs in no word. *)
Lemma tokens_cut (A : list JsString) (x : N) (g r : JsString) :
  (forall w, In w A -> ~ In x w) ->
  tokens A (g ++ x :: r) -> tokens A g /\ tokens A (x :: r).
Proof.
  intros HA H. remember (g ++ x :: r) as s eqn:Hs. revert g Hs.
  induction H as [|c s Hc H IH|w s Hw H IH]; intros g Hs.
  - now destruct g.
  - destruct g as [|d g]; simpl in Hs.
    + injection Hs as -> ->. split; [apply tokens_nil|now apply tokens_unit].
    + injection Hs as -> ->. destruct (IH g eq_refl) as [Hg Hr].
      split; [now apply tokens_unit|exact Hr].
  - destruct (app_prefix x w s g r (HA w Hw) Hs) as (g' & -> & ->).
    destruct (IH g' eq_refl) as [Hg Hr].
    split; [now apply tokens_word|exact Hr].
Qed.

Lemma span_app (p : N -> bool) (s : JsString) :
  fst (span p s) ++ snd (span p s) = s.
Proof.
  induction s as [|c s IH]; [reflexivity|]. simpl.
  destruct (p c); [|reflexivity].
  destruct (span p s) as [a b]. simpl in *. now rewrite IH.
Qed.

Lemma bold_Some (s r : JsString) (k : nat) :
  bold s = Some (r, k) ->
  exists g rest,
    s = star :: star :: g ++ star :: star :: rest
    /\ r = strong_open ++ g ++ strong_close
    /\ k = (1 + List.length g + 2)%nat.
Proof.
  unfold bold. intros H.
  destruct (startsWith [star; star] s) eqn:Hs; [|discriminate].
  apply startsWith_app in Hs. change (List.length [star; star]) with 2%nat in Hs.
  remember (skipn 2 s) as t eqn:Ht. clear Ht.
  pose proof (span_app (fun c => negb (c =? star)) t) as Hsp.
  destruct (span (fun c => negb (c =? star)) t) as [g rest].
  simpl in Hsp. destruct g as [|c g]; [discriminate|].
  destruct (startsWith [star; star] rest) eqn:Hr; [|discriminate].
  apply startsWith_app in Hr. change (List.length [star; star]) with 2%nat in Hr.
  injection H as <- <-. exists (c :: g), (skipn 2 rest).
  split; [|split; reflexivity].
  rewrite Hs, <- Hsp, Hr at 1. reflexivity.
Qed.

(** ** formatMarkdown writes no markup but its own *)

Lemma absentb_spec (x : N) (A : list JsString) :
  absentb x A = true -> forall w, In w A -> ~ In x w.
Proof.
  unfold absentb. rewrite forallb_forall. intros HA w Hw Hx.
  specialize (HA w Hw). apply negb_true_iff in HA.
  assert (existsb (N.eqb x) w = true) as E; [|congruence].
  apply existsb_exists. exists x. split; [exact Hx|apply N.eqb_refl].
Qed.

Lemma ledb_spec (A : list JsString) : ledb A = true -> led A.
Proof.
  unfold ledb. rewrite forallb_forall. intros HA w Hw.
  specialize (HA w Hw). destruct w as [|c w']; [discriminate|].
  exists c, w'. split; [reflexivity|].
  intros (Hlt & _ & Hamp). apply orb_prop in HA as [E|E]; apply N.eqb_eq in E; auto.
Qed.

Lemma led_html_words : led html_words.
Proof. apply ledb_spec. vm_compute. reflexivity. Qed.

Lemma plainb_spec (c : N) :
  negb ((c =? lt) || (c =? gt) || (c =? amp)) = true -> plain c.
Proof.
  intros H. apply negb_true_iff in H.
  apply orb_false_elim in H as [H Hamp]. apply orb_false_elim in H as [Hlt Hgt].
  apply N.eqb_neq in Hamp, Hlt, Hgt. now repeat split.
Qed.

Lemma entities_html_words : incl entities html_words.
Proof. apply incl_appl, incl_refl. Qed.

Lemma tags_html_words : incl formatter_tags html_words.
Proof. apply incl_appr, incl_refl. Qed.

(** *** Escaping *)

Lemma flat_map_flat_map (f g : N -> JsString) (s : JsString) :
  flat_map g (flat_map f s) = flat_map (fun c => flat_map g (f c)) s.
Proof.
  induction s as [|c s IH]; [reflexivity|].
  simpl. now rewrite flat_map_app, IH.
Qed.

Lemma escapeHtml_units (s : JsString) : escapeHtml s = flat_map escape_unit s.
Proof.
  unfold escapeHtml. rewrite !replace_unit, !flat_map_flat_map.
  apply flat_map_ext. intros c. unfold escape_unit.
  destruct (N.eqb_spec c amp) as [->|Hamp]; [vm_compute; reflexivity|].
  cbn [flat_map]. rewrite app_nil_r.
  destruct (N.eqb_spec c lt) as [->|Hlt]; [vm_compute; reflexivity|].
  cbn [flat_map]. rewrite app_nil_r.
  destruct (N.eqb_spec c gt) as [->|Hgt]; reflexivity.
Qed.

Lemma escapeHtml_tokens (s : JsString) : tokens entities (escapeHtml s).
Proof.
  rewrite escapeHtml_units. induction s as [|c s IH]; [apply tokens_nil|].
  cbn [flat_map]. unfold escape_unit.
  destruct (N.eqb_spec c amp) as [->|Hamp];
    [apply tokens_word; [vm_compute; auto|exact IH]|].
  destruct (N.eqb_spec c lt) as [->|Hlt];
    [apply tokens_word; [vm_compute; auto|exact IH]|].
  destruct (N.eqb_spec c gt) as [->|Hgt];
    [apply tokens_word; [vm_compute; auto|exact IH]|].
  apply tokens_unit; [now repeat split|exact IH].
Qed.

(** *** The bold pass *)

Lemma plain_star : plain star.
Proof. apply plainb_spec. reflexivity. Qed.

Lemma star_absent : forall w, In w html_words -> ~ In star w.
Proof. apply absentb_spec. vm_compute. reflexivity. Qed.

Lemma bold_tokens (n : nat) (s : JsString) :
  (List.length s <= n)%nat -> tokens html_words s -> tokens html_words (replace bold s).
Proof.
  revert s. induction n as [|n IH]; intros s Hn Hs.
  { destruct s; [apply tokens_nil|simpl in Hn; lia]. }
  destruct Hs as [|c s Hc Hs|w s Hw Hs].
  - apply tokens_nil.
  - simpl in Hn. rewrite replace_cons.
    destruct (bold (c :: s)) as [[r k]|] eqn:Hb.
    + apply bold_Some in Hb as (g & rest & Heq & -> & ->).
      injection Heq as -> ->.
      apply (tokens_plain_inv led_html_words plain_star) in Hs.
      apply (tokens_cut _ _ _ star_absent) in Hs as [Hg Hrest].
      apply (tokens_plain_inv led_html_words plain_star) in Hrest.
      apply (tokens_plain_inv led_html_words plain_star) in Hrest.
      replace (skipn (1 + List.length g + 2) (star :: g ++ star :: star :: rest))
        with rest.
      2:{ change (star :: g ++ star :: star :: rest)
            with ([star] ++ g ++ [star; star] ++ rest).
          rewrite !app_assoc. rewrite skipn_app.
          rewrite skipn_all2 by (rewrite !length_app; simpl; lia).
          rewrite !length_app. simpl List.length.
          replace (1 + List.length g + 2 - (1 + List.length g + 2))%nat with 0%nat by lia.
          reflexivity. }
      rewrite <- !app_assoc.
      apply tokens_word; [apply tags_html_words; vm_compute; auto|].
      apply tokens_app; [exact Hg|].
      apply tokens_word; [apply tags_html_words; vm_compute; auto 10|].
      apply IH; [|exact Hrest].
      simpl in Hn. rewrite length_app in Hn. simpl in Hn. lia.
    + apply tokens_unit; [exact Hc|]. apply IH; [lia|exact Hs].
  - rewrite replace_word.
    + apply tokens_word; [exact Hw|]. apply IH; [|exact Hs].
      rewrite length_app in Hn.
      destruct (led_html_words Hw) as (c & w0 & -> & _). simpl in Hn. lia.
    + intros x t Hx. apply bold_miss. intros ->. exact (star_absent Hw Hx).
Qed.

(** *** The passes that replace a literal text *)

Lemma literal_tokens (p0 : N) (ptail rep : JsString) :
  plain p0 -> Forall plain ptail ->
  (forall w, In w html_words -> ~ In p0 w) ->
  tokens html_words rep ->
  forall (n : nat) (s : JsString),
    (List.length s <= n)%nat -> tokens html_words s ->
    tokens html_words (replace (literal (p0 :: ptail) rep) s).
Proof.
  intros Hp0 Hptail Habsent Hrep.
  induction n as [|n IH]; intros s Hn Hs.
  { destruct s; [apply tokens_nil|simpl in Hn; lia]. }
  destruct Hs as [|c s Hc Hs|w s Hw Hs].
  - apply tokens_nil.
  - simpl in Hn. rewrite replace_cons. unfold literal at 1.
    destruct (startsWith (p0 :: ptail) (c :: s)) eqn:Hm.
    + apply startsWith_app in Hm. simpl in Hm. injection Hm as _ Hm.
      cbn [List.length pred]. apply tokens_app; [exact Hrep|].
      apply IH.
      * rewrite length_skipn. lia.
      * rewrite Hm in Hs. now apply tokens_drop_plain in Hs; [|apply led_html_words|].
    + apply tokens_unit; [exact Hc|]. apply IH; [lia|exact Hs].
  - rewrite replace_word.
    + apply tokens_word; [exact Hw|]. apply IH; [|exact Hs].
      rewrite length_app in Hn.
      destruct (led_html_words Hw) as (c & w0 & -> & _). simpl in Hn. lia.
    + intros x t Hx. apply literal_miss. intros ->. exact (Habsent w Hw Hx).
Qed.

(** The alphabet of the output: the escaped text is made of plain units
    and entities, and the returned HTML of plain units, entities and the
    formatter's own tags. *)
Lemma formatMarkdown_only_formatter_tags (s : JsString) :
  escapeHtml s = flat_map escape_unit s
  /\ tokens entities (escapeHtml s)
  /\ tokens (entities ++ formatter_tags) (formatMarkdown s).
Proof.
  split; [apply escapeHtml_units|]. split; [apply escapeHtml_tokens|].
  fold html_words. unfold formatMarkdown.
  assert (forall w, In w formatter_tags -> tokens html_words w) as Htag
    by (intros w Hw; apply tokens_one, tags_html_words, Hw).
  eapply literal_tokens; [| | | |apply Nat.le_refl|].
  - apply plainb_spec. reflexivity.
  - repeat constructor; apply plainb_spec; reflexivity.
  - apply absentb_spec. vm_compute. reflexivity.
  - apply tokens_app; [apply Htag; vm_compute; auto 10|].
    apply tokens_app; [|apply Htag; vm_compute; auto 10].
    repeat (apply tokens_unit; [apply plainb_spec; reflexivity|]). apply tokens_nil.
  - eapply literal_tokens; [| | | |apply Nat.le_refl|].
    + apply plainb_spec. reflexivity.
    + constructor.
    + apply absentb_spec. vm_compute. reflexivity.
    + apply tokens_app; [apply Htag; vm_compute; auto 10|].
      apply tokens_app; [|apply Htag; vm_compute; auto 10].
      repeat (apply tokens_unit; [apply plainb_spec; reflexivity|]). apply tokens_nil.
    + eapply literal_tokens; [| | | |apply Nat.le_refl|].
      * apply plainb_spec. reflexivity.
      * constructor.
      * apply absentb_spec. vm_compute. reflexivity.
      * apply Htag. vm_compute. auto 10.
      * eapply bold_tokens; [apply Nat.le_refl|].
        eapply tokens_mono; [apply entities_html_words|apply escapeHtml_tokens].
Qed.

(** ** The loop over lines *)

Lemma eqb_eq (a b : JsString) : Js.eqb a b = true -> a = b.
Proof.
  revert b; induction a as [|x a IH]; intros [|y b] E; try easy.
  simpl in E. apply andb_prop in E as [Exy E].
  apply N.eqb_eq in Exy. subst y. f_equal. now apply IH.
Qed.

Lemma eqb_refl (a : JsString) : Js.eqb a a = true.
Proof. induction a as [|x a IH]; [reflexivity|]. simpl. now rewrite N.eqb_refl. Qed.

Lemma last_default (A : Type) (x : A) (l : list A) (d d' : A) :
  last (x :: l) d = last (x :: l) d'.
Proof. revert x; induction l as [|y l IH]; intros x; [reflexivity|apply IH]. Qed.

Lemma last_cons (A : Type) (x : A) (l : list A) (d : A) :
  last (x :: l) d = last l x.
Proof.
  destruct l as [|y l]; [reflexivity|].
  change (last (y :: l) d = last (y :: l) x). apply last_default.
Qed.

Section Loop.
Context `{Host}.

Lemma on_line_effect (v : Version) (t : Turn) (line : JsString) :
  on_line_in v t line =
  match received line with
  | Some data => effect v t data
  | None => t
  end.
Proof.
  unfold received, effect, type_is, content.
  destruct v; cbn [on_line_in]; unfold AppJs.on_line, AppJs.try_line,
    Revised.on_line, Revised.try_line;
  (destruct (startsWith (js "data: ") line); cbn [negb]; [|reflexivity]);
  (destruct (JSON_parse (slice 6 line)) as [data|]; [|reflexivity]);
  (destruct (get data (js "type")) as [type|] eqn:Ety; [|reflexivity]);
  (destruct (strict_eq_str type (js "status"));
   [destruct (get data (js "content")) as [c|]; [|reflexivity];
    destruct (ToString c); reflexivity|]);
  (destruct (strict_eq_str type (js "text"));
   [destruct (get data (js "content")) as [c|]; [|reflexivity];
    destruct (ToString c); reflexivity|]);
  destruct (strict_eq_str type (js "done")); reflexivity.
Qed.

Lemma type_is_excl (a b : JsString) (data : JsValue) :
  a <> b -> type_is a data = true -> type_is b data = false.
Proof.
  unfold type_is. intros Hab. destruct (get data (js "type")) as [[| | | |s| |]|]; try easy.
  simpl. intros Ea. apply eqb_eq in Ea. subst s.
  destruct (Js.eqb a b) eqn:E; [apply eqb_eq in E; contradiction|reflexivity].
Qed.

Lemma effect_awaiting (v : Version) (t : Turn) (data : JsValue) :
  awaiting (effect v t data) = awaiting t /\ userMsg (effect v t data) = userMsg t.
Proof.
  unfold effect.
  destruct (type_is (js "status") data); [destruct (content data); auto|].
  destruct (type_is (js "text") data); [destruct (content data); auto|].
  destruct (type_is (js "done") data); [destruct v; auto|auto].
Qed.

Lemma effect_text (v : Version) (t : Turn) (data : JsValue) :
  text (effect v t data) =
  text t ++ match text_content data with Some c => c | None => [] end.
Proof.
  unfold effect, text_content.
  destruct (type_is (js "status") data) eqn:Es.
  - rewrite (type_is_excl (a := js "status") (b := js "text")) by easy.
    rewrite app_nil_r. now destruct (content data).
  - destruct (type_is (js "text") data).
    + destruct (content data); [reflexivity|now rewrite app_nil_r].
    + rewrite app_nil_r. destruct (type_is (js "done") data); [now destruct v|reflexivity].
Qed.

Lemma effect_status (v : Version) (t : Turn) (data : JsValue) :
  status_innerHTML (effect v t data) =
  match status_written data with Some h => h | None => status_innerHTML t end.
Proof.
  unfold effect, status_written.
  destruct (type_is (js "status") data); [now destruct (content data)|].
  destruct (type_is (js "text") data) eqn:Et.
  - rewrite (type_is_excl (a := js "text") (b := js "done")) by easy.
    now destruct (content data).
  - destruct (type_is (js "done") data); [now destruct v|reflexivity].
Qed.

Lemma formatMarkdown_nil : formatMarkdown [] = [].
Proof. reflexivity. Qed.

Lemma effect_shows (v : Version) (t : Turn) (data : JsValue) :
  shows v (response t) (text t) ->
  shows v (response (effect v t data)) (text (effect v t data)).
Proof.
  unfold effect. intros Ht.
  destruct (type_is (js "status") data); [now destruct (content data)|].
  destruct (type_is (js "text") data).
  - destruct (content data); [|exact Ht]. destruct v; simpl; auto.
  - destruct (type_is (js "done") data); [|exact Ht]. destruct v; [exact Ht|reflexivity].
Qed.

Lemma on_lines_app (v : Version) (a b : list JsString) (t : Turn) :
  on_lines v (a ++ b) t = on_lines v b (on_lines v a t).
Proof. apply fold_left_app. Qed.

Lemma on_lines_awaiting (v : Version) (lines : list JsString) (t : Turn) :
  awaiting (on_lines v lines t) = awaiting t /\ userMsg (on_lines v lines t) = userMsg t.
Proof.
  revert t; induction lines as [|l lines IH]; intros t; [auto|].
  cbn [on_lines fold_left]. fold (on_lines v lines (on_line_in v t l)).
  destruct (IH (on_line_in v t l)) as [-> ->]. rewrite on_line_effect.
  destruct (received l); [apply effect_awaiting|auto].
Qed.

Lemma on_lines_text (v : Version) (lines : list JsString) (t : Turn) :
  text (on_lines v lines t) = text t ++ List.concat (filter_map text_content (events lines)).
Proof.
  revert t; induction lines as [|l lines IH]; intros t; [now rewrite app_nil_r|].
  cbn [on_lines fold_left]. fold (on_lines v lines (on_line_in v t l)).
  rewrite IH, on_line_effect. unfold events. cbn [filter_map].
  destruct (received l) as [data|]; [|reflexivity].
  rewrite effect_text. cbn [filter_map].
  destruct (text_content data); [cbn [List.concat]; now rewrite app_assoc|now rewrite app_nil_r].
Qed.

Lemma on_lines_status (v : Version) (lines : list JsString) (t : Turn) :
  status_innerHTML (on_lines v lines t) =
  last (filter_map status_written (events lines)) (status_innerHTML t).
Proof.
  revert t; induction lines as [|l lines IH]; intros t; [reflexivity|].
  cbn [on_lines fold_left]. fold (on_lines v lines (on_line_in v t l)).
  rewrite IH, on_line_effect. unfold events. cbn [filter_map].
  destruct (received l) as [data|]; [|reflexivity].
  rewrite effect_status. cbn [filter_map].
  destruct (status_written data) as [h|]; [|reflexivity].
  symmetry. apply last_cons.
Qed.

Lemma on_lines_shows (v : Version) (lines : list JsString) (t : Turn) :
  shows v (response t) (text t) ->
  shows v (response (on_lines v lines t)) (text (on_lines v lines t)).
Proof.
  revert t; induction lines as [|l lines IH]; intros t Ht; [exact Ht|].
  cbn [on_lines fold_left]. apply IH. rewrite on_line_effect.
  destruct (received l); [now apply effect_shows|exact Ht].
Qed.

End Loop.

(** ** Calls of [send] on the page *)

Section Pages.
Variable line_body : Turn -> JsString -> Turn.
Hypothesis line_body_awaiting : forall t l, awaiting (line_body t l) = awaiting t.

Lemma on_chunk_awaiting (t : Turn) (chunk : JsString) :
  awaiting (Client.on_chunk line_body t chunk) = awaiting t.
Proof.
  unfold Client.on_chunk. generalize (split newline chunk). intros ls.
  revert t; induction ls as [|l ls IH]; intros t; [reflexivity|].
  simpl. now rewrite IH.
Qed.

Lemma alter_last (f : Turn -> Turn) (l : list Turn) (t : Turn) :
  Client.alter f (List.length l) (l ++ [t]) = l ++ [if awaiting t then f t else t].
Proof. induction l as [|x l IH]; [reflexivity|]. simpl. now rewrite IH. Qed.

Lemma is_awaiting_last (b d : bool) (iv : JsString) (l : list Turn) (t : Turn) :
  Client.is_awaiting (List.length l) (mkPage b d iv (l ++ [t])) = awaiting t.
Proof.
  unfold Client.is_awaiting. simpl.
  rewrite nth_error_app2 by lia. now rewrite Nat.sub_diag.
Qed.

Lemma read_values_last (b d : bool) (iv : JsString) (l : list Turn)
      (chunks : list JsString) (t : Turn) :
  awaiting t = true ->
  fold_left (fun p chunk => Client.read_value line_body (List.length l) chunk p)
    chunks (mkPage b d iv (l ++ [t]))
  = mkPage b d iv (l ++ [fold_left (Client.on_chunk line_body) chunks t]).
Proof.
  revert t; induction chunks as [|c chunks IH]; intros t Ht; [reflexivity|].
  simpl. unfold Client.read_value at 2, Client.resume. simpl.
  rewrite alter_last, Ht. apply IH. now rewrite on_chunk_awaiting.
Qed.

Lemma read_loop_awaiting (chunks : list JsString) (t : Turn) :
  awaiting (fold_left (Client.on_chunk line_body) chunks t) = awaiting t.
Proof.
  revert t; induction chunks as [|c chunks IH]; intros t; [reflexivity|].
  simpl. now rewrite IH, on_chunk_awaiting.
Qed.

(** A call of [send] adds one turn and leaves the page unlocked. *)
Lemma send_adds_turn (prompt : JsString) (net : Network) (p : Page) :
  Client.send line_body prompt net p =
  mkPage false false (input_value p)
    (chat p ++
     [set_awaiting false
        match net with
        | ConnectFailed => Client.on_error (Client.new_turn prompt)
        | Streamed chunks Closed =>
          Client.on_close
            (fold_left (Client.on_chunk line_body) chunks (Client.new_turn prompt))
        | Streamed chunks ReadRejected =>
          Client.on_error
            (fold_left (Client.on_chunk line_body) chunks (Client.new_turn prompt))
        end]).
Proof.
  unfold Client.send, Client.send_start. destruct net as [|chunks ending].
  - unfold Client.rejected. rewrite is_awaiting_last. simpl.
    unfold Client.unlock, Client.resume. simpl. now rewrite alter_last.
  - rewrite read_values_last by reflexivity.
    destruct ending; unfold Client.read_done, Client.rejected;
      rewrite is_awaiting_last, read_loop_awaiting; simpl;
      unfold Client.unlock, Client.resume; simpl;
      rewrite alter_last, read_loop_awaiting; reflexivity.
Qed.

(** *** The busy lock *)

Lemma alter_same_awaiting (f : Turn -> Turn) (i : nat) (l : list Turn) :
  (forall t, awaiting (f t) = awaiting t) ->
  List.length (filter awaiting (Client.alter f i l)) = List.length (filter awaiting l).
Proof.
  intros Hf. revert i; induction l as [|x l IH]; intros [|i]; simpl; try reflexivity.
  - destruct (awaiting x) eqn:Ex; [|now rewrite Ex].
    now rewrite Hf, Ex.
  - destruct (awaiting x); simpl; now rewrite IH.
Qed.

Lemma alter_settles (f : Turn -> Turn) (i : nat) (l : list Turn) :
  (forall t, awaiting (f t) = false) ->
  match nth_error l i with Some t => awaiting t | None => false end = true ->
  S (List.length (filter awaiting (Client.alter f i l))) = List.length (filter awaiting l).
Proof.
  intros Hf. revert i; induction l as [|x l IH]; intros [|i]; simpl; try discriminate.
  - intros Ex. now rewrite Ex, Hf.
  - intros Hi. destruct (awaiting x); simpl; now rewrite IH.
Qed.

Lemma send_start_locked (prompt : JsString) (p : Page) :
  locked p -> busy p = false -> locked (Client.send_start prompt p).
Proof.
  unfold locked, Client.in_flight. intros Hp Hb. rewrite Hb in Hp. simpl.
  rewrite filter_app, length_app, Hp. reflexivity.
Qed.

Lemma submit_locked (p : Page) : locked p -> locked (Client.submit_handler p).
Proof.
  intros Hp. unfold Client.submit_handler.
  destruct (trim (input_value p)); [exact Hp|].
  destruct (busy p) eqn:Hb; [exact Hp|].
  apply send_start_locked; [|reflexivity].
  unfold locked, Client.in_flight in *. simpl. now rewrite Hb in Hp.
Qed.

Lemma settle_locked (f : Turn -> Turn) (i : nat) (p : Page) :
  (forall t, awaiting (f t) = false) ->
  locked p -> Client.is_awaiting i p = true ->
  locked (Client.unlock (Client.resume f i p)).
Proof.
  unfold locked, Client.in_flight, Client.is_awaiting. intros Hf Hp Hi. simpl.
  pose proof (alter_settles f i (chat p) Hf Hi) as E.
  destruct (busy p); lia.
Qed.

Lemma step_locked (p : Page) (a : Client.Action) :
  locked p -> locked (Client.step line_body p a).
Proof.
  intros Hp. destruct a as [value|e| |i chunk|i|i]; simpl.
  - exact Hp.
  - unfold Client.keydown_handler.
    destruct (_ && _); simpl; [now apply submit_locked|exact Hp].
  - now apply submit_locked.
  - unfold locked, Client.in_flight, Client.read_value, Client.resume in *. simpl.
    rewrite alter_same_awaiting; [exact Hp|]. intros t. apply on_chunk_awaiting.
  - unfold Client.read_done. destruct (Client.is_awaiting i p) eqn:Hi; [|exact Hp].
    now apply settle_locked.
  - unfold Client.rejected. destruct (Client.is_awaiting i p) eqn:Hi; [|exact Hp].
    now apply settle_locked.
Qed.

Lemma run_locked (actions : list Client.Action) (p : Page) :
  locked p -> locked (Client.run line_body actions p).
Proof.
  revert p; induction actions as [|a actions IH]; intros p Hp; [exact Hp|].
  simpl. apply IH. now apply step_locked.
Qed.

End Pages.

(** ** The claims about the client *)

Section Claims.
Context `{Host}.

Lemma on_line_awaiting (v : Version) (t : Turn) (line : JsString) :
  awaiting (on_line_in v t line) = awaiting t.
Proof. exact (proj1 (on_lines_awaiting v [line] t)). Qed.

Lemma read_loop_lines (v : Version) (chunks : list JsString) (t : Turn) :
  fold_left (Client.on_chunk (on_line_in v)) chunks t = on_lines v (lines_of chunks) t.
Proof.
  revert t; induction chunks as [|c chunks IH]; intros t; [reflexivity|].
  unfold lines_of. cbn [fold_left flat_map]. rewrite on_lines_app, IH. reflexivity.
Qed.

Lemma send_turn (v : Version) (prompt : JsString) (net : Network) (p : Page) :
  send_in v prompt net p =
  mkPage false false (input_value p) (chat p ++ [turn_after v prompt net]).
Proof.
  replace (send_in v) with (Client.send (on_line_in v)) by (now destruct v).
  rewrite (send_adds_turn (on_line_in v) (on_line_awaiting v)).
  unfold turn_after. destruct net as [|chunks []]; now rewrite ?read_loop_lines.
Qed.

(** C5. Every call of [send] on a request that ends returns with the page
    unlocked: [busy] is false and the button enabled, whether the stream
    closed (with or without a done event; the status is then Complete) or
    the connection or a read failed (the status is then the error text). *)
Theorem send_always_unlocks (v : Version) (prompt : JsString) (net : Network) (p : Page) :
  busy (send_in v prompt net p) = false
  /\ btn_disabled (send_in v prompt net p) = false
  /\ Client.in_flight (send_in v prompt net p) = Client.in_flight p
  /\ exists t,
       chat (send_in v prompt net p) = chat p ++ [t]
       /\ awaiting t = false
       /\ match net with
          | Streamed _ Closed =>
            status_className t = js "status done"
            /\ status_innerHTML t = js "Complete"
          | _ =>
            status_className t = js "status error"
            /\ status_innerHTML t = js "Failed to connect. Is the backend running?"
          end.
Proof.
  rewrite send_turn. cbn [busy btn_disabled chat]. repeat split.
  - unfold Client.in_flight. cbn [chat]. rewrite filter_app, length_app.
    cbn. lia.
  - exists (turn_after v prompt net). repeat split.
    destruct net as [|chunks []]; split; reflexivity.
Qed.

(** A text event as the protocol has it contributes its content. *)
Lemma text_content_string (props : list (JsString * JsValue)) (c : JsString) :
  own (js "type") props = Some (Str (js "text")) ->
  own (js "content") props = Some (Str c) ->
  text_content (Obj props) = Some c.
Proof.
  intros Ht Hc. unfold text_content, type_is, content, get. now rewrite Ht, Hc.
Qed.


Lemma effect_versions (a b : Turn) (data : JsValue) :
  same_but_response a b ->
  same_but_response (effect app_js a data) (effect revised b data).
Proof.
  unfold same_but_response, effect. intros (Hu & Hc & Hs & Ht & Ha).
  destruct (type_is (js "status") data); [destruct (content data); simpl; auto|].
  destruct (type_is (js "text") data);
    [destruct (content data); simpl; rewrite ?Ht; auto 6|].
  destruct (type_is (js "done") data); simpl; auto 6.
Qed.

Lemma on_lines_versions (lines : list JsString) (a b : Turn) :
  same_but_response a b ->
  same_but_response (on_lines app_js lines a) (on_lines revised lines b).
Proof.
  revert a b; induction lines as [|l lines IH]; intros a b Hab; [exact Hab|].
  cbn [on_lines fold_left]. apply IH. rewrite !on_line_effect.
  destruct (received l); [now apply effect_versions|exact Hab].
Qed.

(** C9. On the same request the two files leave the same page but for the
    response element of the new turn: the same [busy] and button state, the
    same accumulated [text] and status; app.js shows the text as plain
    text, the revision shows [formatMarkdown] of it. *)
Theorem versions_accumulate_same_answer (prompt : JsString) (net : Network) (p : Page) :
  busy (send_in app_js prompt net p) = busy (send_in revised prompt net p)
  /\ btn_disabled (send_in app_js prompt net p) = btn_disabled (send_in revised prompt net p)
  /\ input_value (send_in app_js prompt net p) = input_value (send_in revised prompt net p)
  /\ exists a r,
       chat (send_in app_js prompt net p) = chat p ++ [a]
       /\ chat (send_in revised prompt net p) = chat p ++ [r]
       /\ text a = text r
       /\ same_but_response a r
       /\ shows app_js (response a) (text a)
       /\ shows revised (response r) (text r).
Proof.
  rewrite !send_turn. cbn [busy btn_disabled input_value chat].
  repeat split.
  exists (turn_after app_js prompt net), (turn_after revised prompt net).
  split; [reflexivity|]. split; [reflexivity|].
  assert (same_but_response (Client.new_turn prompt) (Client.new_turn prompt)) as Hnew
    by (repeat split).
  assert (forall v, shows v (response (Client.new_turn prompt)) (text (Client.new_turn prompt)))
    as Hshow by (intros []; simpl; auto).
  unfold turn_after. destruct net as [|chunks ending].
  - split; [reflexivity|]. split; [repeat split|]. split; [now right|reflexivity].
  - pose proof (on_lines_versions (lines_of chunks) Hnew) as (Hu & Hc & Hs & Ht & Ha).
    pose proof (on_lines_shows app_js (lines_of chunks) _ (Hshow app_js)) as Sa.
    pose proof (on_lines_shows revised (lines_of chunks) _ (Hshow revised)) as Sr.
    destruct ending; (split; [exact Ht|]); (split; [repeat split; assumption|]);
      (split; [exact Sa|exact Sr]).
Qed.

End Claims.

Lemma split_nonempty (sep : N) (s : JsString) : split sep s <> [].
Proof.
  destruct s as [|c s]; simpl; [discriminate|].
  destruct (c =? sep); [discriminate|]. destruct (split sep s); discriminate.
Qed.

Lemma split_app (sep : N) (a b : JsString) :
  split sep (a ++ sep :: b) = split sep a ++ split sep b.
Proof.
  induction a as [|c a IH]; simpl.
  - now rewrite N.eqb_refl.
  - destruct (c =? sep); [now rewrite IH|].
    rewrite IH. pose proof (split_nonempty sep a) as Hne.
    destruct (split sep a); [contradiction|reflexivity].
Qed.

Lemma split_one (sep : N) (s : JsString) : ~ In sep s -> split sep s = [s].
Proof.
  induction s as [|c s IH]; intros Hs; [reflexivity|]. simpl.
  destruct (N.eqb_spec c sep) as [->|_]; [exfalso; apply Hs; now left|].
  rewrite IH; [reflexivity|]. intros Hin. apply Hs. now right.
Qed.

Section MoreClaims.
Context `{Host}.

Lemma lines_of_app (a b : list JsString) : lines_of (a ++ b) = lines_of a ++ lines_of b.
Proof. apply flat_map_app. Qed.

Lemma lines_of_cons (a : list JsString) (x : JsString) (b : list JsString) :
  lines_of (a ++ x :: b) = lines_of a ++ split newline x ++ lines_of b.
Proof. now rewrite lines_of_app. Qed.

(** C10. A line that does not start with ['data: '], or whose payload
    [JSON.parse] rejects, changes nothing: the turn is as before, the
    lines after it are processed as if it were absent, and a call of
    [send] returns the same page as on the stream without that line. *)
Theorem malformed_line_is_skipped (v : Version) (line : JsString) :
  startsWith (js "data: ") line = false \/ JSON_parse (slice 6 line) = None ->
  (forall t, on_line_in v t line = t)
  /\ (forall before after t,
        on_lines v (before ++ line :: after) t = on_lines v (before ++ after) t)
  /\ (~ In newline line ->
      forall prompt chunks1 a b chunks2 ending p,
        send_in v prompt
          (Streamed (chunks1 ++ (a ++ newline :: line ++ newline :: b) :: chunks2) ending) p
        = send_in v prompt (Streamed (chunks1 ++ (a ++ newline :: b) :: chunks2) ending) p).
Proof.
  intros Hbad.
  assert (received line = None) as Hnone.
  { unfold received. destruct Hbad as [-> | ->]; [reflexivity|].
    now destruct (startsWith (js "data: ") line). }
  assert (forall t, on_line_in v t line = t) as Hskip
    by (intros t; now rewrite on_line_effect, Hnone).
  assert (forall before after t,
             on_lines v (before ++ line :: after) t = on_lines v (before ++ after) t)
    as Hlines.
  { intros before after t. rewrite !on_lines_app. cbn [on_lines fold_left].
    now rewrite Hskip. }
  split; [exact Hskip|]. split; [exact Hlines|].
  intros Hnl prompt chunks1 a b chunks2 ending p.
  rewrite !send_turn. do 2 f_equal. unfold turn_after.
  assert (forall t,
             on_lines v (lines_of (chunks1 ++ (a ++ newline :: line ++ newline :: b) :: chunks2)) t
             = on_lines v (lines_of (chunks1 ++ (a ++ newline :: b) :: chunks2)) t) as E.
  { intros t. rewrite !lines_of_cons, !split_app, (@split_one newline line Hnl).
    rewrite <- !app_assoc. cbn [app].
    rewrite (app_assoc (lines_of chunks1) (split newline a)).
    rewrite Hlines. now rewrite <- app_assoc. }
  destruct ending; now rewrite E.
Qed.

(** C1 (what the code does with a question event).  Neither file has a
    branch for the type [question]: such an event leaves the status, the
    response and the accumulated text as they were. *)
Theorem question_event_is_not_rendered (v : Version) (t : Turn) (line : JsString) (data : JsValue) :
  received line = Some data ->
  type_is (js "question") data = true ->
  on_line_in v t line = t.
Proof.
  intros Hr Hq. rewrite on_line_effect, Hr. unfold effect.
  rewrite (type_is_excl (a := js "question") (b := js "status") data) by easy.
  rewrite (type_is_excl (a := js "question") (b := js "text") data) by easy.
  rewrite (type_is_excl (a := js "question") (b := js "done") data) by easy.
  reflexivity.
Qed.

(** C4 (as amended). A done event sets the status to Complete and leaves
    the accumulated answer as it is, but does not end the turn: the events
    that follow it are processed like any others, later text events being
    appended to the answer and later status or done events rewriting the
    status.  The turn ends with the stream, whose normal end shows
    Complete whether or not a done event arrived. *)
Theorem done_marks_complete_without_ending
    (v : Version) (t : Turn) (line : JsString) (data : JsValue) :
  received line = Some data ->
  type_is (js "done") data = true ->
  status_className (on_line_in v t line) = js "status done"
  /\ status_innerHTML (on_line_in v t line) = js "Complete"
  /\ text (on_line_in v t line) = text t
  /\ (forall later,
        text (on_lines v later (on_line_in v t line))
        = text t ++ List.concat (filter_map text_content (events later))
        /\ status_innerHTML (on_lines v later (on_line_in v t line))
           = last (filter_map status_written (events later)) (js "Complete"))
  /\ (forall prompt chunks p,
        exists t',
          chat (send_in v prompt (Streamed chunks Closed) p) = chat p ++ [t']
          /\ status_innerHTML t' = js "Complete").
Proof.
  intros Hr Hd.
  assert (type_is (js "status") data = false) as Hs
    by (now apply (type_is_excl (a := js "done"))).
  assert (type_is (js "text") data = false) as Ht
    by (now apply (type_is_excl (a := js "done"))).
  assert (on_line_in v t line = effect v t data) as E by (now rewrite on_line_effect, Hr).
  assert (status_className (on_line_in v t line) = js "status done"
          /\ status_innerHTML (on_line_in v t line) = js "Complete"
          /\ text (on_line_in v t line) = text t) as (Hc & Hi & Hx).
  { rewrite E. unfold effect. rewrite Hs, Ht, Hd. destruct v; repeat split. }
  repeat split; try assumption.
  - now rewrite on_lines_text, Hx.
  - now rewrite on_lines_status, Hi.
  - intros prompt chunks p. rewrite send_turn. eexists. split; reflexivity.
Qed.

(** C6 (as amended). After any lines of a turn the status element holds
    what the most recent status or done event wrote: the spinner and the
    content of a status event, Complete for a done event, and the initial
    Thinking... if neither has arrived.  As long as no done event has
    arrived this is the content of the most recent status event. *)
Theorem status_is_last_written (v : Version) (prompt : JsString) (lines : list JsString) :
  status_innerHTML (on_lines v lines (Client.new_turn prompt))
  = last (filter_map status_written (events lines)) (spinner (js "Thinking..."))
  /\ (forallb (fun data => negb (type_is (js "done") data)) (events lines) = true ->
      status_innerHTML (on_lines v lines (Client.new_turn prompt))
      = spinner (last (filter_map status_content (events lines)) (js "Thinking..."))).
Proof.
  split; [apply on_lines_status|].
  rewrite on_lines_status. cbn [Client.new_turn status_innerHTML].
  generalize (js "Thinking..."). induction (events lines) as [|d ds IH]; intros c Hd.
  - reflexivity.
  - cbn [forallb] in Hd. apply andb_prop in Hd as [Hd Hds].
    apply negb_true_iff in Hd. cbn [filter_map].
    unfold status_written at 1, status_content at 1. rewrite Hd.
    destruct (type_is (js "status") d); [|now apply IH].
    destruct (content d) as [c'|]; [|now apply IH].
    cbn [option_map]. rewrite !last_cons. now apply IH.
Qed.

(** C3. While [busy] is set the submit listener and the Enter-key listener
    leave the page as it is, so no second call of [send] starts; an
    accepted utterance sets [busy]; and whatever the user and the network
    do, at most one call of [send] is in flight, exactly when [busy] is
    set. *)
Theorem busy_admits_one_turn (v : Version) :
  (forall p e, busy p = true ->
     Client.submit_handler p = p /\ Client.keydown_handler e p = (p, false))
  /\ (forall p, busy p = false -> trim (input_value p) <> [] ->
        busy (Client.submit_handler p) = true
        /\ Client.in_flight (Client.submit_handler p) = S (Client.in_flight p))
  /\ (forall actions,
        (Client.in_flight (run_in v actions initial) <= 1)%nat
        /\ (busy (run_in v actions initial) = true
            <-> Client.in_flight (run_in v actions initial) = 1%nat)).
Proof.
  split; [|split].
  - intros p e Hb. unfold Client.keydown_handler, Client.submit_handler. rewrite Hb.
    rewrite andb_false_r. split; [|reflexivity].
    now destruct (trim (input_value p)).
  - intros p Hb Hin. unfold Client.submit_handler. rewrite Hb.
    destruct (trim (input_value p)) as [|c s]; [contradiction|].
    split; [reflexivity|]. unfold Client.in_flight. cbn.
    rewrite filter_app, length_app. cbn. lia.
  - intros actions.
    assert (locked initial) as H0 by reflexivity.
    pose proof (run_locked (on_line_in v) (on_line_awaiting v) actions H0) as Hl.
    unfold locked in Hl. fold (run_in v actions initial) in Hl.
    destruct (busy (run_in v actions initial)); rewrite Hl; split; try lia; split; try easy.
Qed.

End MoreClaims.

(** ** The claim about the orchestrator *)
Module OrchestratorFacts.
Import Orchestrator.

Lemma started_starts (l : list ToolInvocation) (tail : list Event) :
  started (map step_start l ++ tail) = l ++ started tail.
Proof. induction l as [|s l IH]; [reflexivity|]. simpl. now rewrite IH. Qed.




Lemma emit_all_firstn (k : nat) (events : list Event) :
  emit_all (Some k) events = firstn k (emit_all None events).
Proof. reflexivity. Qed.

Section Facts.
Variable lookup : string -> option Tool.
Variable infer_plan : string -> ConversationMemory -> option Plan.
Variable compose_response : list ToolResult -> option string.





(** A caller that stays is never found gone. *)
Lemma run_steps_stays (steps : list Step) :
  forall results events c' r,
    run_steps lookup None results steps = (events, c', r) ->
    c' = None /\ r <> Disconnected.
Proof.
  induction steps as [|step rest IH]; intros results events c' r; simpl.
  - intros [= _ <- <-]. split; [reflexivity|discriminate].
  - destruct (blocked results step); [apply IH|].
    destruct (lookup (tool (call step))) as [t|];
      [|intros [= _ <- <-]; split; [reflexivity|discriminate]].
    destruct (run_steps lookup None _ rest) as [[ev c2] r2] eqn:E.
    intros [= _ <- <-]. exact (IH _ _ _ _ E).
Qed.

(** The run for a caller that leaves after [k] events is the run for a
    caller that stays, cut after [k] events: the steps already started
    are the same, and no step is started after the caller is found
    gone. *)
Lemma run_steps_caller (steps : list Step) :
  forall k results events c' r,
    run_steps lookup None results steps = (events, c', r) ->
    run_steps lookup (Some k) results steps
    = if (List.length events <=? k)%nat
      then (events, Some (k - List.length events)%nat, r)
      else (firstn k events, Some 0%nat, Disconnected).
Proof.
  induction steps as [|step rest IH]; intros k results events c' r; simpl.
  - intros [= <- _ <-]. simpl. now rewrite Nat.sub_0_r.
  - destruct (blocked results step); [apply IH|].
    destruct (lookup (tool (call step))) as [t|].
    2:{ intros [= <- _ <-]. simpl. now rewrite Nat.sub_0_r. }
    destruct (run_steps lookup None _ rest) as [[ev c2] r2] eqn:E.
    intros [= <- _ <-]. destruct k as [|k]; [reflexivity|].
    simpl. rewrite (IH k _ _ _ _ E).
    destruct (List.length ev <=? k)%nat; reflexivity.
Qed.

(** Section 5: what a caller that disconnects after [k] events receives
    is the first [k] events of the stream of a caller that stays, and
    nothing more. *)
Lemma disconnect_cuts_stream (k : nat) (utterance : string) (memory : ConversationMemory) :
  handle lookup infer_plan compose_response (Some k) utterance memory
  = firstn k (handle lookup infer_plan compose_response None utterance memory).
Proof.
  unfold handle.
  destruct (infer_plan utterance memory) as [[q|a|[|step rest]]|]; try reflexivity.
  remember (step :: rest) as steps eqn:Hs. clear Hs.
  destruct (run_steps lookup None [] steps) as [[events c'] r] eqn:E.
  rewrite (run_steps_caller _ k _ E).
  destruct (run_steps_stays _ _ E) as [-> Hr].
  destruct (List.length events <=? k)%nat eqn:Hk.
  - apply Nat.leb_le in Hk.
    destruct r as [results| |]; [| |contradiction].
    + destruct (compose_response results) as [text|];
        rewrite firstn_app, (firstn_all2 events Hk); reflexivity.
    + rewrite firstn_app, (firstn_all2 events Hk); reflexivity.
  - apply Nat.leb_gt in Hk.
    assert (Hz : (k - List.length events = 0)%nat) by lia.
    destruct r as [results| |]; [| |contradiction].
    + destruct (compose_response results) as [text|];
        rewrite firstn_app, Hz; simpl; now rewrite app_nil_r.
    + rewrite firstn_app, Hz; simpl; now rewrite app_nil_r.
Qed.


End Facts.
End OrchestratorFacts.

(** ** Concrete runs *)

(** [formatMarkdown], [split], [trim] and the reference host on small inputs. *)
Example fm1 : formatMarkdown (js "a<b>&**x**") = js "a&lt;b&gt;&amp;<strong>x</strong>".
Proof. vm_compute. reflexivity. Qed.
Example fm2 : formatMarkdown (js "***a** **") = js "*<strong>a</strong> **".
Proof. vm_compute. reflexivity. Qed.
Example fm3 : formatMarkdown ([bullet] ++ js "x" ++ [newline] ++ warning) =
  span_bullet ++ [bullet] ++ span_close ++ js "x<br>" ++ span_warning ++ warning ++ span_close.
Proof. vm_compute. reflexivity. Qed.
Example sp1 : split newline (js "a" ++ [newline] ++ [newline] ++ js "b") = [js "a"; []; js "b"].
Proof. vm_compute. reflexivity. Qed.
Example tr1 : trim (js "  a b  ") = js "a b".
Proof. vm_compute. reflexivity. Qed.
Example ref1 : Reference.parse (jsq "{'type': 'text', 'content': 'Hi\n\u2022'}")
  = Some (Obj [(js "type", Str (js "text")); (js "content", Str (js "Hi" ++ [newline; bullet]))]).
Proof. vm_compute. reflexivity. Qed.
Example ref2 : Reference.parse (jsq " [1, -20, true, null, {'a': [], 'a': {}}] ")
  = Some (Arr [Number (S754_finite false 4503599627370496 (-52));
               Number (Reference.binary64 (-20) true);
               Bool true; Null; Obj [(js "a", Obj [])]]).
Proof. vm_compute. reflexivity. Qed.
Example ref3 :
  @ToString Reference.host
    (Arr [Number (Reference.binary64 12 false); Null; Str (js "x");
          Arr [Bool false; Number (Reference.binary64 (-20) true)]])
  = Some (js "12,,x,false,-20").
Proof. vm_compute. reflexivity. Qed.
Example ref4 :
  map Reference.parse [js "{"; js "nul"; js "01"; jsq "{'a':1,}"; jsq "'a"; js "1 2"; []]
  = [None; None; None; None; None; None; None].
Proof. vm_compute. reflexivity. Qed.

Example send1 :
  @send_in Reference.host app_js prompt (Streamed stream Closed) initial
  = mkPage false false []
      [mkTurn prompt (js "status done") (js "Complete")
         (PlainText (js "Found 3 emails from school.")) (js "Found 3 emails from school.")
         false].
Proof. vm_compute. reflexivity. Qed.
Example send2 :
  @send_in Reference.host revised prompt (Streamed stream ReadRejected) initial
  = mkPage false false []
      [mkTurn prompt (js "status error") (js "Failed to connect. Is the backend running?")
         (Markup (js "Found 3 emails from school.")) (js "Found 3 emails from school.")
         false].
Proof. vm_compute. reflexivity. Qed.
Example run1 :
  map (fun p => (busy p, Client.in_flight p))
    [waiting; @run_in Reference.host app_js [Client.Submit; Client.ReadDone 0] waiting;
     @run_in Reference.host app_js [Client.ReadDone 0; Client.Submit] waiting]
  = [(true, 1%nat); (false, 0%nat); (true, 1%nat)].
Proof. vm_compute. reflexivity. Qed.

(** A question event as the back end sends it, run through both files. *)
Lemma question_event_is_not_rendered_witness :
  @received Reference.host question_line
  = Some (Obj [(js "type", Str (js "question"));
               (js "content", Str (js "What is the email address of Sarah?"))])
  /\ @on_line_in Reference.host app_js turn0 question_line = turn0
  /\ @on_line_in Reference.host revised turn0 question_line = turn0.
Proof.
  split; [vm_compute; reflexivity|].
  split;
    apply (@question_event_is_not_rendered Reference.host _ turn0 question_line
             (Obj [(js "type", Str (js "question"));
                   (js "content", Str (js "What is the email address of Sarah?"))]));
    vm_compute; reflexivity.
Defined.

(** A second Enter or submit while the first prompt is being answered. *)
Lemma busy_admits_one_turn_witness :
  busy waiting = true
  /\ Client.submit_handler waiting = waiting
  /\ Client.keydown_handler (Client.mkKey (js "Enter") false) waiting = (waiting, false).
Proof.
  split; [reflexivity|].
  apply (proj1 (@busy_admits_one_turn Reference.host app_js)). reflexivity.
Defined.

(** C4 (counterexample). A text event and a status event that follow a
    done event are processed: the answer, the response element and the
    status all change after the done event. *)
Lemma events_after_done_are_processed :
  (let at_done := @on_lines Reference.host app_js [text_line; done_line] turn0 in
   let at_end := @on_lines Reference.host app_js
                   [text_line; done_line; more_text_line; status_line] turn0 in
   text at_end <> text at_done
   /\ response at_end <> response at_done
   /\ status_innerHTML at_end <> status_innerHTML at_done)
  /\
  (let at_done := @on_lines Reference.host revised [text_line; done_line] turn0 in
   let at_end := @on_lines Reference.host revised
                   [text_line; done_line; more_text_line; status_line] turn0 in
   text at_end <> text at_done
   /\ response at_end <> response at_done
   /\ status_innerHTML at_end <> status_innerHTML at_done).
Proof.
  split; cbv zeta; repeat split; intros E; vm_compute in E; discriminate E.
Qed.

(** A done event on a fresh turn. *)
Lemma done_marks_complete_without_ending_witness :
  type_is (js "done")
    (Obj [(js "type", Str (js "done")); (js "content", Str [])]) = true
  /\ status_innerHTML (@on_line_in Reference.host revised turn0 done_line) = js "Complete".
Proof.
  split; [reflexivity|].
  apply (@done_marks_complete_without_ending Reference.host revised turn0 done_line
           (Obj [(js "type", Str (js "done")); (js "content", Str [])]));
    vm_compute; reflexivity.
Defined.

(** C6 (counterexample). After a status event and a done event the status
    element holds Complete, not the content of the most recent status
    event. *)
Lemma status_after_done_is_complete :
  filter_map (@status_content Reference.host)
    (@events Reference.host [status_line; done_line]) = [js "Searching emails..."]
  /\ status_innerHTML (@on_lines Reference.host app_js [status_line; done_line] turn0)
     <> spinner (js "Searching emails...")
  /\ status_innerHTML (@on_lines Reference.host revised [status_line; done_line] turn0)
     <> spinner (js "Searching emails...").
Proof.
  split; [vm_compute; reflexivity|].
  split; intros E; vm_compute in E; discriminate E.
Qed.

(** A status event followed by a text event, no done event. *)
Lemma status_is_last_written_witness :
  forallb (fun data => negb (type_is (js "done") data))
    (@events Reference.host [status_line; text_line]) = true
  /\ status_innerHTML (@on_lines Reference.host revised [status_line; text_line] turn0)
     = spinner (last (filter_map (@status_content Reference.host)
                        (@events Reference.host [status_line; text_line]))
                  (js "Thinking...")).
Proof.
  split; [vm_compute; reflexivity|].
  apply (proj2 (@status_is_last_written Reference.host revised prompt
                  [status_line; text_line])).
  vm_compute. reflexivity.
Defined.

(** A data line cut in the middle of its payload. *)
Lemma malformed_line_is_skipped_witness :
  @JSON_parse Reference.host (slice 6 broken_line) = None
  /\ @on_line_in Reference.host revised turn0 broken_line = turn0
  /\ @on_lines Reference.host revised [text_line; broken_line; done_line] turn0
     = @on_lines Reference.host revised [text_line; done_line] turn0.
Proof.
  assert (@JSON_parse Reference.host (slice 6 broken_line) = None) as Hbad
    by (vm_compute; reflexivity).
  split; [exact Hbad|].
  destruct (@malformed_line_is_skipped Reference.host revised broken_line (or_intror Hbad))
    as (Hskip & Hlines & _).
  split; [apply Hskip|apply (Hlines [text_line] [done_line])].
Defined.


(** A caller that leaves after the first event: the second step is not
    started and nothing more is emitted. *)
Example disconnected_caller :
  Orchestrator.handle lookup infer_plan_unmarked compose_response (Some 1%nat)
    "Email john@test.com about the meeting tomorrow" (Orchestrator.mkMemory None None)
  = [Orchestrator.step_start dentist].
Proof. reflexivity. Qed.


(** * Further properties of the client *)

(** ** [trim] *)

Lemma trimStart_clean (s : JsString) : starts_clean (trimStart s).
Proof.
  induction s as [|c s IH]; simpl; [exact I|].
  destruct (isWhiteSpace c) eqn:E; [exact IH|exact E].
Qed.

Lemma trimStart_fixed (s : JsString) : starts_clean s -> trimStart s = s.
Proof. destruct s as [|c s]; simpl; [reflexivity|]. now intros ->. Qed.

Lemma trimStart_suffix (s : JsString) :
  exists ws, s = ws ++ trimStart s /\ blank ws = true.
Proof.
  induction s as [|c s (ws & IH & Hws)]; [now exists []|]. simpl.
  destruct (isWhiteSpace c) eqn:E; [|now exists []].
  exists (c :: ws). simpl. rewrite E. split; [now f_equal|exact Hws].
Qed.

Lemma trimStart_nil (s : JsString) : trimStart s = [] <-> blank s = true.
Proof.
  induction s as [|c s IH]; simpl; [tauto|].
  destruct (isWhiteSpace c); simpl; [exact IH|]. split; discriminate.
Qed.

Lemma blank_rev (s : JsString) : blank (rev s) = blank s.
Proof.
  unfold blank. induction s as [|c s IH]; [reflexivity|]. simpl.
  rewrite forallb_app, IH. simpl. rewrite andb_true_r. apply andb_comm.
Qed.

Lemma trim_fixed (s : JsString) :
  starts_clean s -> starts_clean (rev s) -> trim s = s.
Proof.
  intros Hs Hr. unfold trim.
  now rewrite (trimStart_fixed s Hs), (trimStart_fixed (rev s) Hr), rev_involutive.
Qed.

Lemma trim_clean (s : JsString) : starts_clean (trim s) /\ starts_clean (rev (trim s)).
Proof.
  unfold trim. rewrite rev_involutive.
  pose proof (trimStart_clean s) as Ha.
  pose proof (trimStart_clean (rev (trimStart s))) as Hb.
  destruct (trimStart_suffix (rev (trimStart s))) as (ws & Hsuf & _).
  split; [|exact Hb].
  apply (f_equal (@rev N)) in Hsuf. rewrite rev_involutive, rev_app_distr in Hsuf.
  destruct (rev (trimStart (rev (trimStart s)))) as [|c r]; [exact I|].
  rewrite Hsuf in Ha. exact Ha.
Qed.

Lemma trim_idempotent (s : JsString) : trim (trim s) = trim s.
Proof. destruct (trim_clean s). now apply trim_fixed. Qed.

Lemma trim_nil (s : JsString) : trim s = [] <-> blank s = true.
Proof.
  unfold trim. split.
  - intros E. apply (f_equal (@rev N)) in E. rewrite rev_involutive in E. simpl in E.
    apply trimStart_nil in E. rewrite blank_rev in E.
    destruct (trimStart_suffix s) as (ws & Hs & Hws).
    pose proof (trimStart_clean s) as Hc.
    destruct (trimStart s) as [|c r] eqn:Et.
    + now apply trimStart_nil.
    + simpl in E, Hc. rewrite Hc in E. discriminate.
  - intros Hb. apply trimStart_nil in Hb. rewrite Hb. reflexivity.
Qed.

Lemma trimStart_In (x : N) (s : JsString) : In x (trimStart s) -> In x s.
Proof.
  destruct (trimStart_suffix s) as (ws & Hs & _). intros Hx.
  rewrite Hs. apply in_or_app. now right.
Qed.

Lemma trim_In (x : N) (s : JsString) : In x (trim s) -> In x s.
Proof.
  unfold trim. intros Hx. apply in_rev in Hx.
  apply trimStart_In, in_rev in Hx. now apply trimStart_In.
Qed.

(** ** What the page keeps *)

Section Keeps.
Context `{Host}.
Variable v : Version.

Lemma on_chunk_lines (t : Turn) (chunk : JsString) :
  Client.on_chunk (on_line_in v) t chunk = on_lines v (split newline chunk) t.
Proof. reflexivity. Qed.

Lemma alter_length (f : Turn -> Turn) (i : nat) (l : list Turn) :
  List.length (Client.alter f i l) = List.length l.
Proof. revert i; induction l as [|x l IH]; intros [|i]; simpl; auto. Qed.

Lemma alter_keeps_settled (f : Turn -> Turn) (i j : nat) (l : list Turn) (t : Turn) :
  nth_error l j = Some t -> awaiting t = false ->
  nth_error (Client.alter f i l) j = Some t.
Proof.
  revert i j; induction l as [|x l IH]; intros i j Hj Ht; [now destruct j|].
  destruct i as [|i], j as [|j]; simpl in *; auto.
  injection Hj as ->. now rewrite Ht.
Qed.

Lemma alter_past (f : Turn -> Turn) (i : nat) (past : list Turn) (t : Turn) :
  Forall (fun t => awaiting t = false) past ->
  Client.alter f i (past ++ [t]) =
  past ++ [if Nat.eqb i (List.length past) then (if awaiting t then f t else t) else t].
Proof.
  intros Hp. revert i; induction Hp as [|x past Hx _ IH]; intros [|i]; simpl.
  - reflexivity.
  - now destruct i.
  - now rewrite Hx.
  - now rewrite IH.
Qed.

Lemma alter_all_settled (f : Turn -> Turn) (i : nat) (l : list Turn) :
  Forall (fun t => awaiting t = false) l -> Client.alter f i l = l.
Proof.
  intros Hl. revert i; induction Hl as [|x l Hx _ IH]; intros [|i]; simpl.
  - reflexivity.
  - reflexivity.
  - now rewrite Hx.
  - now rewrite IH.
Qed.

Lemma is_awaiting_past (i : nat) (b d : bool) (iv : JsString) (past : list Turn) (t : Turn) :
  Forall (fun t => awaiting t = false) past ->
  Client.is_awaiting i (mkPage b d iv (past ++ [t])) = true ->
  i = List.length past /\ awaiting t = true.
Proof.
  unfold Client.is_awaiting. simpl. intros Hp. revert i.
  induction Hp as [|x past Hx _ IH]; intros [|i]; simpl.
  - auto.
  - now destruct i.
  - now rewrite Hx.
  - intros Hi. destruct (IH i Hi). auto.
Qed.

Lemma is_awaiting_settled (i : nat) (b d : bool) (iv : JsString) (l : list Turn) :
  Forall (fun t => awaiting t = false) l ->
  Client.is_awaiting i (mkPage b d iv l) = false.
Proof.
  unfold Client.is_awaiting. simpl. intros Hl. revert i.
  induction Hl as [|x l Hx _ IH]; intros [|i]; simpl; auto.
Qed.

Lemma submit_orderly (p : Page) : orderly p -> orderly (Client.submit_handler p).
Proof.
  intros Hp. unfold Client.submit_handler.
  destruct (trim (input_value p)) as [|c s] eqn:Et; [exact Hp|].
  destruct (busy p) eqn:Hb; [exact Hp|].
  destruct Hp as (Hmsg & past & Hpast & [(_ & Hc)|(Hbusy & _)]); [|congruence].
  split.
  - unfold Client.send_start. simpl. apply Forall_app. split; [exact Hmsg|].
    constructor; [|constructor]. unfold sent_prompt. simpl.
    split; [discriminate|]. rewrite <- Et. apply trim_idempotent.
  - exists past. split; [exact Hpast|]. right. split; [reflexivity|].
    exists (Client.new_turn (c :: s)). split; [reflexivity|].
    unfold Client.send_start. simpl. now rewrite Hc.
Qed.

Lemma settle_orderly (f : Turn -> Turn) (i : nat) (p : Page) :
  (forall t, userMsg (f t) = userMsg t) ->
  (forall t, final_status (f t)) ->
  orderly p -> Client.is_awaiting i p = true ->
  orderly (Client.unlock (Client.resume (fun t => set_awaiting false (f t)) i p)).
Proof.
  intros Hu Hf (Hmsg & past & Hpast & Hcase) Hi. destruct p as [b d iv l].
  simpl in *.
  assert (Forall (fun t => awaiting t = false) past) as Hs
    by (eapply Forall_impl; [|exact Hpast]; now intros t []).
  destruct Hcase as [(_ & ->)|(_ & t & Ht & ->)].
  { now rewrite (is_awaiting_settled i b d iv Hs) in Hi. }
  destruct (is_awaiting_past i b d iv t Hs Hi) as [-> _].
  unfold Client.unlock, Client.resume. simpl.
  rewrite (alter_past _ _ t Hs), Nat.eqb_refl, Ht.
  apply Forall_app in Hmsg as [Hm1 Hm2]. inversion Hm2 as [|? ? Hmt _]; subst.
  split.
  - simpl. apply Forall_app. split; [exact Hm1|].
    constructor; [|constructor]. unfold sent_prompt in *. simpl. now rewrite Hu.
  - exists (past ++ [set_awaiting false (f t)]). split.
    + apply Forall_app. split; [exact Hpast|].
      constructor; [|constructor]. split; [reflexivity|].
      destruct (Hf t) as [[Hc Hh]|[Hc Hh]]; [left|right]; now split.
    + left. now split.
Qed.

Lemma step_orderly (p : Page) (a : Client.Action) :
  orderly p -> orderly (Client.step (on_line_in v) p a).
Proof.
  intros Hp. destruct a as [value|e| |i chunk|i|i]; simpl.
  - exact Hp.
  - unfold Client.keydown_handler.
    destruct (_ && _); simpl; [now apply submit_orderly|exact Hp].
  - now apply submit_orderly.
  - destruct Hp as (Hmsg & past & Hpast & Hcase). destruct p as [b d iv l].
    simpl in *. unfold Client.read_value, Client.resume. simpl.
    assert (Forall (fun t => awaiting t = false) past) as Hs
      by (eapply Forall_impl; [|exact Hpast]; now intros t []).
    destruct Hcase as [(Hb & ->)|(Hb & t & Ht & ->)].
    + rewrite (alter_all_settled _ i Hs). split; [exact Hmsg|].
      exists past. split; [exact Hpast|]. now left.
    + rewrite (alter_past _ i t Hs), Ht.
      destruct (on_lines_awaiting v (split newline chunk) t) as [Ha Hu].
      apply Forall_app in Hmsg as [Hm1 Hm2]. inversion Hm2 as [|? ? Hmt _]; subst.
      destruct (Nat.eqb i (List.length past)).
      * split.
        -- apply Forall_app. split; [exact Hm1|]. constructor; [|constructor].
           unfold sent_prompt in *. rewrite on_chunk_lines. now rewrite Hu.
        -- exists past. split; [exact Hpast|]. right. split; [reflexivity|].
           eexists. split; [|reflexivity]. rewrite on_chunk_lines. now rewrite Ha.
      * split.
        -- apply Forall_app. split; [exact Hm1|]. now constructor.
        -- exists past. split; [exact Hpast|]. right. split; [reflexivity|].
           now exists t.
  - unfold Client.read_done. destruct (Client.is_awaiting i p) eqn:Hi; [|exact Hp].
    apply (settle_orderly Client.on_close i); auto.
    intros t. left. now split.
  - unfold Client.rejected. destruct (Client.is_awaiting i p) eqn:Hi; [|exact Hp].
    apply (settle_orderly Client.on_error i); auto.
    intros t. right. now split.
Qed.

Lemma run_orderly (actions : list Client.Action) (p : Page) :
  orderly p -> orderly (run_in v actions p).
Proof.
  unfold run_in, Client.run.
  revert p; induction actions as [|a actions IH]; intros p Hp; [exact Hp|].
  simpl. apply IH. now apply step_orderly.
Qed.

Lemma initial_orderly : orderly initial.
Proof.
  split; [constructor|]. exists []. split; [constructor|]. now left.
Qed.

End Keeps.

Section PageFacts.
Context `{Host}.

(** X1. Whatever the user and the network do, the send button is disabled
    exactly while [busy] is set. *)
Theorem button_mirrors_busy (v : Version) (actions : list Client.Action) :
  btn_disabled (run_in v actions initial) = busy (run_in v actions initial).
Proof.
  unfold run_in, Client.run.
  assert (btn_disabled initial = busy initial) as H0 by reflexivity.
  revert H0. generalize initial.
  induction actions as [|a actions IH]; intros p Hp; [exact Hp|].
  simpl. apply IH.
  assert (btn_disabled (Client.submit_handler p) = busy (Client.submit_handler p)) as Hs.
  { unfold Client.submit_handler. destruct (trim (input_value p)); [exact Hp|].
    destruct (busy p) eqn:Hb; [now rewrite Hb|reflexivity]. }
  destruct a as [value|e| |i chunk|i|i]; simpl.
  - exact Hp.
  - unfold Client.keydown_handler. destruct (_ && _); simpl; [exact Hs|exact Hp].
  - exact Hs.
  - exact Hp.
  - unfold Client.read_done. destruct (Client.is_awaiting i p); [reflexivity|exact Hp].
  - unfold Client.rejected. destruct (Client.is_awaiting i p); [reflexivity|exact Hp].
Qed.

(** X2. A turn whose call of [send] has returned is never touched again,
    and no message is ever removed from the chat: from any page, after any
    actions, such a turn is where it was and as it was. *)
Theorem returned_turns_are_kept
    (v : Version) (actions : list Client.Action) (p : Page) (i : nat) (t : Turn) :
  nth_error (chat p) i = Some t -> awaiting t = false ->
  nth_error (chat (run_in v actions p)) i = Some t
  /\ (List.length (chat p) <= List.length (chat (run_in v actions p)))%nat.
Proof.
  unfold run_in, Client.run.
  revert p; induction actions as [|a actions IH]; intros p Hi Ht; [auto|].
  simpl.
  assert (nth_error (chat (Client.submit_handler p)) i = Some t
          /\ (List.length (chat p) <= List.length (chat (Client.submit_handler p)))%nat)
    as Hs.
  { unfold Client.submit_handler. destruct (trim (input_value p)); [auto|].
    destruct (busy p); [auto|]. simpl. rewrite length_app. split; [|lia].
    rewrite nth_error_app1; [exact Hi|]. apply nth_error_Some. congruence. }
  assert (nth_error (chat (Client.step (on_line_in v) p a)) i = Some t
          /\ (List.length (chat p)
              <= List.length (chat (Client.step (on_line_in v) p a)))%nat) as [Hi' Hl].
  { destruct a as [value|e| |j chunk|j|j]; simpl.
    - auto.
    - unfold Client.keydown_handler. destruct (_ && _); simpl; auto.
    - exact Hs.
    - rewrite alter_length. split; [now apply alter_keeps_settled|lia].
    - unfold Client.read_done. destruct (Client.is_awaiting j p); [|auto]. simpl.
      rewrite alter_length. split; [now apply alter_keeps_settled|lia].
    - unfold Client.rejected. destruct (Client.is_awaiting j p); [|auto]. simpl.
      rewrite alter_length. split; [now apply alter_keeps_settled|lia]. }
  destruct (IH _ Hi' Ht) as [E L]. split; [exact E|lia].
Qed.

(** X3. Turns are answered one after the other: on every page the client
    can reach, a turn still awaited is the last of the chat, and [busy] is
    set. *)
Theorem only_last_turn_is_awaited
    (v : Version) (actions : list Client.Action) (i : nat) (t : Turn) :
  nth_error (chat (run_in v actions initial)) i = Some t ->
  awaiting t = true ->
  S i = List.length (chat (run_in v actions initial))
  /\ busy (run_in v actions initial) = true.
Proof.
  destruct (run_orderly v actions initial_orderly) as (_ & past & Hpast & Hcase).
  intros Hi Ht.
  assert (forall j u, nth_error past j = Some u -> awaiting u = false) as Hs.
  { intros j u Hj. apply nth_error_In in Hj.
    rewrite Forall_forall in Hpast. now destruct (Hpast u Hj). }
  destruct Hcase as [(_ & E)|(Hb & u & Hu & E)]; rewrite E in *.
  - rewrite (Hs i t Hi) in Ht. discriminate.
  - split; [|exact Hb]. rewrite length_app. simpl.
    destruct (Nat.lt_ge_cases i (List.length past)) as [Hlt|Hge].
    + rewrite nth_error_app1 in Hi by exact Hlt. rewrite (Hs i t Hi) in Ht. discriminate.
    + assert (i < List.length (past ++ [u]))%nat as Hlen
        by (apply nth_error_Some; congruence).
      rewrite length_app in Hlen. simpl in Hlen. lia.
Qed.

(** X4. On every page the client can reach, a turn whose call of [send]
    has returned shows Complete or the connection error: no spinner and no
    intermediate status is left behind. *)
Theorem returned_turn_shows_final_status
    (v : Version) (actions : list Client.Action) (t : Turn) :
  In t (chat (run_in v actions initial)) -> awaiting t = false -> final_status t.
Proof.
  destruct (run_orderly v actions initial_orderly) as (_ & past & Hpast & Hcase).
  rewrite Forall_forall in Hpast. intros Hin Ht.
  destruct Hcase as [(_ & E)|(_ & u & Hu & E)]; rewrite E in Hin.
  - now destruct (Hpast t Hin).
  - apply in_app_or in Hin as [Hin|[<-|[]]]; [now destruct (Hpast t Hin)|congruence].
Qed.

(** X5. Every user message on a page the client can reach is a prompt as
    the submit listener accepts it: not empty, and with no white space at
    either end. *)
Theorem user_messages_are_trimmed_prompts
    (v : Version) (actions : list Client.Action) (t : Turn) :
  In t (chat (run_in v actions initial)) ->
  userMsg t <> []
  /\ trim (userMsg t) = userMsg t
  /\ starts_clean (userMsg t) /\ starts_clean (rev (userMsg t)).
Proof.
  destruct (run_orderly v actions initial_orderly) as (Hmsg & _).
  rewrite Forall_forall in Hmsg. intros Hin. destruct (Hmsg t Hin) as [Hne Htrim].
  split; [exact Hne|]. split; [exact Htrim|]. rewrite <- Htrim. apply trim_clean.
Qed.

(** X6. The submit listener starts a turn exactly when the page is not
    busy and the input holds more than white space; the turn then carries
    the trimmed input and the input field is emptied.  The keydown
    listener changes the page as the submit listener does for Enter
    without Shift, and not at all for any other key; it prevents the
    default action of the key exactly for Enter without Shift on a page
    that is not busy, so that on a busy page Enter keeps its default
    action. *)
Theorem listeners_accept_nonblank_input_when_idle (p : Page) (e : Client.KeyboardEvent) :
  (busy p = true \/ blank (input_value p) = true -> Client.submit_handler p = p)
  /\ (busy p = false -> blank (input_value p) = false ->
      Client.submit_handler p
      = mkPage true true [] (chat p ++ [Client.new_turn (trim (input_value p))])
      /\ trim (input_value p) <> [])
  /\ fst (Client.keydown_handler e p)
     = (if Js.eqb (Client.key e) (js "Enter") && negb (Client.shiftKey e)
        then Client.submit_handler p else p)
  /\ snd (Client.keydown_handler e p)
     = Js.eqb (Client.key e) (js "Enter") && negb (Client.shiftKey e) && negb (busy p).
Proof.
  split; [|split].
  - intros [Hb|Hblank]; unfold Client.submit_handler.
    + rewrite Hb. now destruct (trim (input_value p)).
    + apply trim_nil in Hblank. now rewrite Hblank.
  - intros Hb Hblank. unfold Client.submit_handler. rewrite Hb.
    destruct (trim (input_value p)) as [|c s] eqn:Et.
    + apply trim_nil in Et. congruence.
    + split; [reflexivity|discriminate].
  - unfold Client.keydown_handler.
    destruct (Js.eqb (Client.key e) (js "Enter") && negb (Client.shiftKey e)).
    + destruct (busy p) eqn:Hb; simpl.
      * split; [|reflexivity].
        unfold Client.submit_handler. rewrite Hb. now destruct (trim (input_value p)).
      * split; reflexivity.
    + split; reflexivity.
Qed.

End PageFacts.

(** ** Chunks and lines *)

Section StreamFacts.
Context `{Host}.

Lemma skipped_line (v : Version) (line : JsString) (before after : list JsString) (t : Turn) :
  received line = None ->
  on_lines v (before ++ line :: after) t = on_lines v (before ++ after) t.
Proof.
  intros Hn. rewrite !on_lines_app. cbn [on_lines fold_left].
  now rewrite on_line_effect, Hn.
Qed.

Lemma send_same_lines (v : Version) (prompt : JsString) (c c' : list JsString)
      (ending : Ending) (p : Page) :
  (forall t, on_lines v (lines_of c) t = on_lines v (lines_of c') t) ->
  send_in v prompt (Streamed c ending) p = send_in v prompt (Streamed c' ending) p.
Proof.
  intros E. rewrite !send_turn. unfold turn_after. destruct ending; now rewrite E.
Qed.

(** X7. A chunk boundary that falls on a line break is invisible: a call
    of [send] returns the same page whether two runs of lines arrive as
    one chunk or as two. *)
Theorem chunk_boundary_at_line_break_is_invisible
    (v : Version) (prompt : JsString) (chunks1 : list JsString) (a b : JsString)
    (chunks2 : list JsString) (ending : Ending) (p : Page) :
  send_in v prompt (Streamed (chunks1 ++ (a ++ newline :: b) :: chunks2) ending) p
  = send_in v prompt (Streamed (chunks1 ++ a :: b :: chunks2) ending) p.
Proof.
  apply send_same_lines. intros t.
  rewrite !lines_of_cons, split_app.
  change (lines_of (b :: chunks2)) with (split newline b ++ lines_of chunks2).
  now rewrite <- !app_assoc.
Qed.

(** X8. A line cut by a chunk boundary is lost: when the part before the
    cut is rejected by [JSON.parse] and the part after it does not start
    with ['data: '], a call of [send] returns the same page as if the line
    had not been sent at all. *)
Theorem line_cut_by_chunk_boundary_is_lost
    (v : Version) (head tail : JsString) (prompt : JsString) (chunks1 : list JsString)
    (a b : JsString) (chunks2 : list JsString) (ending : Ending) (p : Page) :
  ~ In newline head -> ~ In newline tail ->
  JSON_parse (slice 6 head) = None ->
  startsWith (js "data: ") tail = false ->
  send_in v prompt
    (Streamed (chunks1 ++ (a ++ newline :: head) :: (tail ++ newline :: b) :: chunks2)
       ending) p
  = send_in v prompt (Streamed (chunks1 ++ (a ++ newline :: b) :: chunks2) ending) p.
Proof.
  intros Hh Ht Hparse Hprefix.
  assert (received head = None) as Rh
    by (unfold received; rewrite Hparse; now destruct (startsWith _ head)).
  assert (received tail = None) as Rt by (unfold received; now rewrite Hprefix).
  apply send_same_lines. intros t.
  rewrite !lines_of_cons.
  change (lines_of ((tail ++ newline :: b) :: chunks2))
    with (split newline (tail ++ newline :: b) ++ lines_of chunks2).
  rewrite !split_app, (@split_one newline head Hh), (@split_one newline tail Ht).
  rewrite <- !app_assoc. cbn [app].
  rewrite (app_assoc (lines_of chunks1) (split newline a)).
  rewrite (skipped_line v head _ _ t Rh), (skipped_line v tail _ _ t Rt).
  now rewrite <- app_assoc.
Qed.

Lemma effect_class (v : Version) (t : Turn) (data : JsValue) :
  status_className (effect v t data) =
  if type_is (js "done") data then js "status done" else status_className t.
Proof.
  unfold effect.
  destruct (type_is (js "status") data) eqn:Es.
  - rewrite (type_is_excl (a := js "status") (b := js "done") data) by easy.
    now destruct (content data).
  - destruct (type_is (js "text") data) eqn:Et.
    + rewrite (type_is_excl (a := js "text") (b := js "done") data) by easy.
      now destruct (content data).
    + destruct (type_is (js "done") data); [now destruct v|reflexivity].
Qed.

(** X9. While a turn is awaited its status element has the class
    ['status done'] as soon as a done event has arrived, whatever follows
    it, and the class ['status active'] until then: a status event after a
    done event brings the spinner back but not the class. *)
Theorem status_class_is_done_once_done_arrived
    (v : Version) (prompt : JsString) (lines : list JsString) :
  status_className (on_lines v lines (Client.new_turn prompt))
  = if existsb (type_is (js "done")) (events lines)
    then js "status done" else js "status active".
Proof.
  change (js "status active") with (status_className (Client.new_turn prompt)).
  generalize (Client.new_turn prompt).
  induction lines as [|l lines IH]; intros t; [reflexivity|].
  cbn [on_lines fold_left]. fold (on_lines v lines (on_line_in v t l)).
  rewrite IH, on_line_effect. unfold events. cbn [filter_map].
  destruct (received l) as [data|]; [|reflexivity].
  cbn [filter_map existsb]. rewrite effect_class.
  destruct (type_is (js "done") data); [|reflexivity]. cbn [orb].
  now destruct (existsb _ _).
Qed.

End StreamFacts.

(** ** The Google card *)

Module GoogleFacts.
Import Google.

Lemma existsb_eqb_In (c : JsString) (l : list JsString) :
  existsb (Js.eqb c) l = true <-> In c l.
Proof.
  rewrite existsb_exists. split.
  - intros (x & Hx & E). apply eqb_eq in E. now subst.
  - intros Hc. exists c. split; [exact Hc|apply eqb_refl].
Qed.

Lemma classList_add_In (c : JsString) (l : list JsString) : In c (classList_add c l).
Proof.
  unfold classList_add. destruct (existsb (Js.eqb c) l) eqn:E.
  - now apply existsb_eqb_In.
  - apply in_or_app. right. now left.
Qed.

Lemma classList_add_incl (c : JsString) (l : list JsString) : incl l (classList_add c l).
Proof.
  unfold classList_add. destruct (existsb (Js.eqb c) l); [apply incl_refl|].
  apply incl_appl, incl_refl.
Qed.

Lemma classList_add_idempotent (c : JsString) (l : list JsString) :
  classList_add c (classList_add c l) = classList_add c l.
Proof.
  unfold classList_add at 1.
  now rewrite (proj2 (existsb_eqb_In c _) (classList_add_In c l)).
Qed.

Lemma step_reports (g : Card) (e : Event) :
  step g e = if reports e then shown_connected g else g.
Proof.
  destruct e as [data|[data|]]; simpl; unfold message_listener, checkConnection.
  - destruct (get data (js "type")) as [type|]; [|reflexivity].
    now destruct (strict_eq_str type (js "google-auth-success")).
  - destruct (get data (js "connected")) as [c|]; [|reflexivity].
    now destruct (ToBoolean c).
  - reflexivity.
Qed.

Lemma shown_connected_idempotent (g : Card) :
  shown_connected (shown_connected g) = shown_connected g.
Proof. unfold shown_connected. simpl. now rewrite classList_add_idempotent. Qed.

(** X10. The card shows the connection from the first event that reports
    one, whether a message of type [google-auth-success] or a status
    answer with a truthy [connected], and further events change nothing:
    after any events the card is the connected card if one of them
    reported a connection, and the card as it was otherwise (a rejected or
    malformed answer is ignored). *)
Theorem card_connects_on_first_report (events : list Event) (g : Card) :
  fold_left step events g
  = if existsb reports events then shown_connected g else g.
Proof.
  revert g; induction events as [|e events IH]; intros g; [reflexivity|].
  simpl. rewrite IH, step_reports.
  destruct (reports e); simpl; [|reflexivity].
  rewrite shown_connected_idempotent. now destruct (existsb reports events).
Qed.

(** X11. Nothing disconnects the card: no event removes a class from it,
    so a card that has the class [connected] keeps it. *)
Theorem card_never_loses_a_class (events : list Event) (g : Card) (c : JsString) :
  In c (card_classList g) -> In c (card_classList (fold_left step events g)).
Proof.
  revert g; induction events as [|e events IH]; intros g Hc; [exact Hc|].
  simpl. apply IH. rewrite step_reports.
  destruct (reports e); [|exact Hc]. simpl. now apply classList_add_incl.
Qed.

End GoogleFacts.

(** ** The school settings *)

Module SettingsFacts.
Import Settings.

Lemma split_segments (sep : N) (s seg : JsString) :
  In seg (split sep s) -> ~ In sep seg /\ incl seg s.
Proof.
  revert seg; induction s as [|c s IH]; intros seg; simpl.
  - intros [<-|[]]. split; [easy|apply incl_refl].
  - destruct (N.eqb_spec c sep) as [->|Hc].
    + intros [<-|Hin]; [split; [easy|easy]|].
      destruct (IH seg Hin) as [Hn Hi]. split; [exact Hn|now apply incl_tl].
    + pose proof (split_nonempty sep s) as Hne.
      destruct (split sep s) as [|x xs]; [contradiction|].
      intros [<-|Hin].
      * destruct (IH x (or_introl eq_refl)) as [Hn Hi]. split.
        -- intros [E|E]; [now subst|contradiction].
        -- intros y [<-|Hy]; [now left|right; now apply Hi].
      * destruct (IH seg (or_intror Hin)) as [Hn Hi].
        split; [exact Hn|now apply incl_tl].
Qed.

Lemma teacherNames_clean (x : JsString) : Forall clean (teacherNames x).
Proof.
  unfold teacherNames. destruct x as [|c x]; [constructor|].
  apply Forall_forall. intros n Hn. apply filter_In in Hn as [Hn Hne].
  apply in_map_iff in Hn as (seg & <- & Hseg).
  apply split_segments in Hseg as [Hcomma _].
  split; [now destruct (trim seg)|]. split; [apply trim_idempotent|].
  intros Hin. apply Hcomma. now apply trim_In.
Qed.

Lemma clean_ends (n : JsString) :
  clean n -> n <> [] /\ starts_clean n /\ starts_clean (rev n) /\ ~ In comma n.
Proof.
  intros (Hne & Htrim & Hcomma). destruct (trim_clean n) as [Ha Hb].
  rewrite Htrim in Ha, Hb. auto.
Qed.

Lemma starts_clean_app (a b : JsString) : a <> [] -> starts_clean a -> starts_clean (a ++ b).
Proof. destruct a; [contradiction|auto]. Qed.

Lemma join_cons (n m : JsString) (ns : list JsString) :
  join (js ", ") (n :: m :: ns) = n ++ comma :: 32 :: join (js ", ") (m :: ns).
Proof. reflexivity. Qed.

Lemma join_nonempty (n : JsString) (ns : list JsString) :
  n <> [] -> join (js ", ") (n :: ns) <> [].
Proof.
  intros Hn. destruct ns as [|m ns]; [exact Hn|]. rewrite join_cons.
  destruct n; [contradiction|discriminate].
Qed.

Lemma split_join (n : JsString) (ns : list JsString) :
  Forall clean (n :: ns) ->
  split comma (join (js ", ") (n :: ns)) = n :: map (cons 32) ns.
Proof.
  revert n; induction ns as [|m ns IH]; intros n Hc.
  - inversion Hc as [|? ? Hn _]; subst. destruct Hn as (_ & _ & Hcomma).
    simpl. now apply split_one.
  - inversion Hc as [|? ? Hn Hrest]; subst. destruct Hn as (_ & _ & Hcomma).
    rewrite join_cons, split_app, (@split_one comma n Hcomma).
    cbn [app]. f_equal. change (split comma (32 :: join (js ", ") (m :: ns)))
      with (match split comma (join (js ", ") (m :: ns)) with
            | [] => [[32]]
            | seg :: segs => (32 :: seg) :: segs
            end).
    now rewrite (IH m Hrest).
Qed.

Lemma trim_join (n : JsString) (ns : list JsString) :
  Forall clean (n :: ns) ->
  trim (join (js ", ") (n :: ns)) = join (js ", ") (n :: ns).
Proof.
  intros Hc. apply trim_fixed.
  - inversion Hc as [|? ? Hn _]; subst. apply clean_ends in Hn as (Hne & Hs & _).
    destruct ns as [|m ns]; [exact Hs|]. rewrite join_cons. now apply starts_clean_app.
  - revert n Hc; induction ns as [|m ns IH]; intros n Hc.
    + inversion Hc as [|? ? Hn _]; subst. now apply clean_ends in Hn.
    + inversion Hc as [|? ? Hn Hrest]; subst. rewrite join_cons.
      change (n ++ comma :: 32 :: join (js ", ") (m :: ns))
        with (n ++ [comma; 32] ++ join (js ", ") (m :: ns)).
      rewrite !rev_app_distr, <- app_assoc. apply starts_clean_app; [|now apply IH].
      inversion Hrest as [|? ? Hm _]; subst. apply clean_ends in Hm as (Hne & _).
      intros E. apply (f_equal (@rev N)) in E. rewrite rev_involutive in E.
      now apply (join_nonempty ns Hne).
Qed.

Lemma trim_after_space (m : JsString) : trim (32 :: m) = trim m.
Proof. reflexivity. Qed.

Lemma filter_none (A : Type) (f : A -> bool) (l : list A) :
  (forall x, In x l -> f x = false) -> filter f l = [].
Proof.
  induction l as [|x l IH]; intros Hf; [reflexivity|]. simpl.
  rewrite (Hf x (or_introl eq_refl)). apply IH. intros y Hy. apply Hf. now right.
Qed.

Lemma teacherNames_join (names : list JsString) :
  Forall clean names -> teacherNames (trim (join (js ", ") names)) = names.
Proof.
  intros Hc. destruct names as [|n ns]; [reflexivity|].
  rewrite (trim_join Hc). unfold teacherNames.
  inversion Hc as [|? ? Hn Hrest]; subst.
  pose proof (@join_nonempty n ns (proj1 Hn)) as Hne.
  destruct (join (js ", ") (n :: ns)) as [|c r] eqn:Ej; [contradiction|].
  rewrite <- Ej, (split_join Hc). cbn [map filter].
  destruct Hn as (Hn1 & Hn2 & _). rewrite Hn2.
  destruct n as [|c0 n0]; [contradiction|]. f_equal.
  clear -Hrest. induction Hrest as [|m ms Hm _ IH]; [reflexivity|].
  cbn [map filter]. rewrite trim_after_space.
  destruct Hm as (Hm1 & Hm2 & _). rewrite Hm2.
  destruct m as [|c1 m1]; [contradiction|]. now rewrite IH.
Qed.

Lemma teacherNames_blank (x : JsString) :
  forallb (fun c => isWhiteSpace c || (c =? comma)) x = true -> teacherNames x = [].
Proof.
  intros Hx. unfold teacherNames. destruct x as [|c x]; [reflexivity|].
  apply filter_none. intros n Hn. apply in_map_iff in Hn as (seg & <- & Hseg).
  apply split_segments in Hseg as [Hcomma Hincl].
  assert (blank seg = true) as Hb.
  { unfold blank. apply forallb_forall. intros y Hy.
    rewrite forallb_forall in Hx. specialize (Hx y (Hincl y Hy)).
    apply orb_prop in Hx as [Hw|Hcm]; [exact Hw|].
    apply N.eqb_eq in Hcm. subst y. contradiction. }
  apply trim_nil in Hb. now rewrite Hb.
Qed.

Section WithHost.
Context `{Host}.

(** X12. What [saveSettings] posts is tidy, whatever the fields hold: the
    school name is trimmed, and every teacher name is non-empty, trimmed
    and free of commas. *)
Theorem posted_settings_are_clean (answer : option JsValue) (s : Panel) :
  trim (school_name (fst (saveSettings answer s)))
  = school_name (fst (saveSettings answer s))
  /\ Forall clean (teacher_names (fst (saveSettings answer s))).
Proof.
  simpl. split; [apply trim_idempotent|apply teacherNames_clean].
Qed.

(** X13. A list of teacher names survives the field: when the teachers
    field holds tidy names joined by [', '], as [loadSettings] writes
    them, [saveSettings] posts exactly these names, in order. *)
Theorem teacher_names_survive_the_field
    (names : list JsString) (answer : option JsValue) (s : Panel) :
  Forall clean names ->
  teachers_input s = join (js ", ") names ->
  teacher_names (fst (saveSettings answer s)) = names.
Proof.
  intros Hc E. simpl. rewrite E. now apply teacherNames_join.
Qed.

(** X14. A teachers field of white space and commas only posts no name,
    and a successful save then shows the school (or No school) without a
    teacher count. *)
Theorem blank_teachers_field_posts_no_names
    (data success : JsValue) (s : Panel) :
  forallb (fun c => isWhiteSpace c || (c =? comma)) (teachers_input s) = true ->
  get data (js "success") = Some success -> ToBoolean success = true ->
  teacher_names (fst (saveSettings (Some data) s)) = []
  /\ school_status_innerHTML (snd (saveSettings (Some data) s))
     = jsq "<span class='dot'></span> "
       ++ match trim (school_input s) with
          | [] => js "No school"
          | _ :: _ => trim (school_input s)
          end.
Proof.
  intros Hb Hget Hok.
  assert (teacherNames (trim (teachers_input s)) = []) as E.
  { apply teacherNames_blank. apply forallb_forall. intros y Hy.
    rewrite forallb_forall in Hb. apply Hb. now apply trim_In. }
  simpl. rewrite Hget, Hok, E. split; [reflexivity|]. simpl.
  unfold status_text. simpl. now rewrite app_nil_r.
Qed.

End WithHost.
End SettingsFacts.

(** ** More on formatMarkdown *)

Lemma escape_unit_cases (c : N) :
  (plain c /\ escape_unit c = [c])
  \/ (c = amp /\ escape_unit c = [amp; 97; 109; 112; 59])
  \/ (c = lt /\ escape_unit c = [amp; 108; 116; 59])
  \/ (c = gt /\ escape_unit c = [amp; 103; 116; 59]).
Proof.
  unfold escape_unit.
  destruct (N.eqb_spec c amp) as [->|Ha]; [right; left; now split|].
  destruct (N.eqb_spec c lt) as [->|Hl]; [right; right; left; now split|].
  destruct (N.eqb_spec c gt) as [->|Hg]; [right; right; right; now split|].
  left. now repeat split.
Qed.

(** X15. Escaping loses nothing: two texts with the same escaped form are
    the same text. *)
Theorem escapeHtml_is_injective (a b : JsString) :
  escapeHtml a = escapeHtml b -> a = b.
Proof.
  rewrite !escapeHtml_units. revert b.
  induction a as [|x a IH]; intros [|y b] E; cbn [flat_map] in E.
  - reflexivity.
  - exfalso. destruct (escape_unit_cases y) as [[_ Ey]|[[_ Ey]|[[_ Ey]|[_ Ey]]]];
      rewrite Ey in E; discriminate.
  - exfalso. destruct (escape_unit_cases x) as [[_ Ex]|[[_ Ex]|[[_ Ex]|[_ Ex]]]];
      rewrite Ex in E; discriminate.
  - destruct (escape_unit_cases x) as [[Px Ex]|[[Px Ex]|[[Px Ex]|[Px Ex]]]];
      destruct (escape_unit_cases y) as [[Py Ey]|[[Py Ey]|[[Py Ey]|[Py Ey]]]];
      rewrite Ex, Ey in E; cbn [app] in E; try discriminate E;
      injection E; intros; subst;
      try (f_equal; apply IH; assumption);
      exfalso;
      match goal with
      | P : plain _ |- _ => destruct P as (_ & _ & P); now apply P
      end.
Qed.

Lemma replace_never (m : Matcher) (s : JsString) :
  (forall x t, In x s -> m (x :: t) = None) -> replace m s = s.
Proof.
  intros Hm. rewrite <- (app_nil_r s) at 1. rewrite (replace_word m s [] Hm).
  apply app_nil_r.
Qed.

(** X16. A text without [&], [<], [>], [*], line break, bullet and warning
    sign is rendered as it is. *)
Theorem formatMarkdown_keeps_plain_text (s : JsString) :
  forallb (fun c => negb (markdown_special c)) s = true -> formatMarkdown s = s.
Proof.
  intros Hs.
  assert (forall x, In x s ->
            x <> amp /\ x <> lt /\ x <> gt /\ x <> star /\ x <> newline
            /\ x <> bullet /\ x <> 9888) as Hx.
  { intros x Hin. rewrite forallb_forall in Hs. specialize (Hs x Hin).
    apply negb_true_iff in Hs. unfold markdown_special in Hs.
    repeat (apply orb_false_elim in Hs as [Hs ?]).
    repeat split; apply N.eqb_neq; assumption. }
  assert (forall p0 ptail rep, (forall x, In x s -> x <> p0) ->
            replace (literal (p0 :: ptail) rep) s = s) as Hlit.
  { intros p0 ptail rep Hp. apply replace_never. intros x t Hin.
    apply literal_miss. now apply Hp. }
  unfold formatMarkdown, escapeHtml, warning.
  rewrite (Hlit amp) by (intros x Hin; apply (Hx x Hin)).
  rewrite (Hlit lt) by (intros x Hin; apply (Hx x Hin)).
  rewrite (Hlit gt) by (intros x Hin; apply (Hx x Hin)).
  rewrite (replace_never bold s)
    by (intros x t Hin; apply bold_miss; apply (Hx x Hin)).
  rewrite (Hlit newline) by (intros x Hin; apply (Hx x Hin)).
  rewrite (Hlit bullet) by (intros x Hin; apply (Hx x Hin)).
  rewrite (Hlit 9888) by (intros x Hin; apply (Hx x Hin)).
  reflexivity.
Qed.

(** *** The strong tags are balanced *)

Section Nesting.
Variable I : list JsString.
Hypothesis I_led : led I.

Lemma nesting_items (d : bool) (s r : JsString) :
  tokens I s -> nesting I d r -> nesting I d (s ++ r).
Proof.
  induction 1 as [|c s Hc _ IH|w s Hw _ IH]; intros Hr; simpl.
  - exact Hr.
  - apply nesting_unit; auto.
  - rewrite <- app_assoc. apply nesting_word; auto.
Qed.

Lemma nesting_plain_inv (d : bool) (c : N) (s : JsString) :
  plain c -> nesting I d (c :: s) -> nesting I d s.
Proof.
  intros Hc Hn. pose proof Hc as (Hlt & _).
  remember (c :: s) as cs eqn:E. destruct Hn as [|d c' s' _ Hs|d w s0 Hw Hs|s0 Hs|s0 Hs].
  - discriminate.
  - injection E as -> ->. exact Hs.
  - destruct (I_led w Hw) as (c' & w' & -> & Hnp). simpl in E.
    injection E as -> _. contradiction.
  - injection E as <- _. now contradiction Hlt.
  - injection E as <- _. now contradiction Hlt.
Qed.

Lemma nesting_drop_plain (d : bool) (p s : JsString) :
  Forall plain p -> nesting I d (p ++ s) -> nesting I d s.
Proof.
  induction 1 as [|c p Hc _ IH]; simpl; intros Hn; [exact Hn|].
  apply IH. now apply nesting_plain_inv with c.
Qed.

Lemma literal_nesting (p0 : N) (ptail rep : JsString) :
  plain p0 -> Forall plain ptail ->
  (forall w, In w (strong_open :: strong_close :: I) -> ~ In p0 w) ->
  forall (n : nat) (d : bool) (s : JsString),
    (List.length s <= n)%nat -> nesting I d s ->
    nesting (rep :: I) d (replace (literal (p0 :: ptail) rep) s).
Proof.
  intros Hp0 Hptail Habsent.
  assert (forall w s0, In w (strong_open :: strong_close :: I) ->
            replace (literal (p0 :: ptail) rep) (w ++ s0)
            = w ++ replace (literal (p0 :: ptail) rep) s0) as Hcopy.
  { intros w s0 Hw. apply replace_word. intros x t Hx. apply literal_miss.
    intros ->. exact (Habsent w Hw Hx). }
  induction n as [|n IH]; intros d s Hn Hs.
  { destruct s; [|simpl in Hn; lia]. inversion Hs; subst; try apply nesting_nil;
      match goal with E : _ ++ _ = [] |- _ => apply app_eq_nil in E as [E _] end;
      try discriminate.
    match goal with Hw : In _ I |- _ => destruct (I_led _ Hw) as (c & w' & -> & _) end.
    discriminate. }
  destruct Hs as [|d c s Hc Hs|d w s Hw Hs|s Hs|s Hs].
  - apply nesting_nil.
  - simpl in Hn. rewrite replace_cons. unfold literal at 1.
    destruct (startsWith (p0 :: ptail) (c :: s)) eqn:Hm.
    + apply startsWith_app in Hm. simpl in Hm. injection Hm as _ Hm.
      cbn [List.length pred]. apply nesting_word; [now left|].
      apply IH; [rewrite length_skipn; lia|].
      rewrite Hm in Hs. now apply nesting_drop_plain in Hs.
    + apply nesting_unit; [exact Hc|]. apply IH; [lia|exact Hs].
  - rewrite Hcopy by (right; right; exact Hw).
    apply nesting_word; [now right|]. apply IH; [|exact Hs].
    rewrite length_app in Hn.
    destruct (I_led w Hw) as (c & w0 & -> & _). simpl in Hn. lia.
  - rewrite Hcopy by (now left).
    apply nesting_open. apply IH; [|exact Hs].
    rewrite length_app in Hn. simpl in Hn. lia.
  - rewrite Hcopy by (right; now left).
    apply nesting_close. apply IH; [|exact Hs].
    rewrite length_app in Hn. simpl in Hn. lia.
Qed.

End Nesting.

Lemma led_entities : led entities.
Proof. apply ledb_spec. vm_compute. reflexivity. Qed.

Lemma star_absent_entities : forall w, In w entities -> ~ In star w.
Proof. apply absentb_spec. vm_compute. reflexivity. Qed.

Lemma bold_nesting (n : nat) (s : JsString) :
  (List.length s <= n)%nat -> tokens entities s ->
  nesting entities false (replace bold s).
Proof.
  revert s. induction n as [|n IH]; intros s Hn Hs.
  { destruct s; [apply nesting_nil|simpl in Hn; lia]. }
  destruct Hs as [|c s Hc Hs|w s Hw Hs].
  - apply nesting_nil.
  - simpl in Hn. rewrite replace_cons.
    destruct (bold (c :: s)) as [[r k]|] eqn:Hb.
    + apply bold_Some in Hb as (g & rest & Heq & -> & ->).
      injection Heq as -> ->.
      apply (tokens_plain_inv led_entities plain_star) in Hs.
      apply (tokens_cut _ _ _ star_absent_entities) in Hs as [Hg Hrest].
      apply (tokens_plain_inv led_entities plain_star) in Hrest.
      apply (tokens_plain_inv led_entities plain_star) in Hrest.
      replace (skipn (1 + List.length g + 2) (star :: g ++ star :: star :: rest))
        with rest.
      2:{ change (star :: g ++ star :: star :: rest)
            with ([star] ++ g ++ [star; star] ++ rest).
          rewrite !app_assoc. rewrite skipn_app.
          rewrite skipn_all2 by (rewrite !length_app; simpl; lia).
          rewrite !length_app. simpl List.length.
          replace (1 + List.length g + 2 - (1 + List.length g + 2))%nat with 0%nat by lia.
          reflexivity. }
      rewrite <- !app_assoc. apply nesting_open.
      apply nesting_items; [exact Hg|]. apply nesting_close.
      apply IH; [|exact Hrest].
      simpl in Hn. rewrite length_app in Hn. simpl in Hn. lia.
    + apply nesting_unit; [exact Hc|]. apply IH; [lia|exact Hs].
  - rewrite replace_word.
    + apply nesting_word; [exact Hw|]. apply IH; [|exact Hs].
      rewrite length_app in Hn.
      destruct (led_entities Hw) as (c & w0 & -> & _). simpl in Hn. lia.
    + intros x t Hx. apply bold_miss. intros ->. exact (star_absent_entities Hw Hx).
Qed.

(** X17. The HTML that [formatMarkdown] returns is well formed: its
    [<strong>] and [</strong>] tags alternate, opening first and closing
    last, and everything else in it is a plain unit, an entity, a [<br>],
    or one of the two styled spans, whole and around its own character. *)
Theorem formatMarkdown_balances_its_tags (s : JsString) :
  nesting inline_words false (formatMarkdown s).
Proof.
  unfold formatMarkdown, inline_words, warning_span, bullet_span, warning.
  cbn [app].
  eapply literal_nesting; [| | | |apply Nat.le_refl|].
  - apply ledb_spec. vm_compute. reflexivity.
  - apply plainb_spec. reflexivity.
  - repeat constructor; apply plainb_spec; reflexivity.
  - apply absentb_spec. vm_compute. reflexivity.
  - eapply literal_nesting; [| | | |apply Nat.le_refl|].
    + apply ledb_spec. vm_compute. reflexivity.
    + apply plainb_spec. reflexivity.
    + constructor.
    + apply absentb_spec. vm_compute. reflexivity.
    + eapply literal_nesting; [| | | |apply Nat.le_refl|].
      * apply led_entities.
      * apply plainb_spec. reflexivity.
      * constructor.
      * apply absentb_spec. vm_compute. reflexivity.
      * eapply bold_nesting; [apply Nat.le_refl|apply escapeHtml_tokens].
Qed.

(** ** Further concrete runs *)

Import MoreExamples.

Example second_turn_page :
  second_turn = mkPage true true [] [first_answer; second_question].
Proof. vm_compute. reflexivity. Qed.

Example save1 :
  @Settings.saveSettings Reference.host (Some saved) panel
  = (Settings.mkBody (js "Oak Hill") teachers,
     Settings.mkPanel (js " Oak Hill ") (js "Ms. Lee, Mr. O'Neil, Dr. Who")
       (js "card-status connected")
       (jsq "<span class='dot'></span> Oak Hill " ++ [bullet] ++ js " 3 teacher(s)")).
Proof. vm_compute. reflexivity. Qed.

Example names1 :
  Settings.teacherNames (js "a,, b ,c d,") = [js "a"; js "b"; js "c d"].
Proof. vm_compute. reflexivity. Qed.

(** The answered turn of [second_turn] survives a further chunk and the
    end of the second stream. *)
Lemma returned_turns_are_kept_witness :
  nth_error (chat second_turn) 0 = Some first_answer
  /\ awaiting first_answer = false
  /\ nth_error
       (chat (@run_in Reference.host revised
                [Client.ReadValue 0 Examples.status_line; Client.ReadValue 1 Examples.status_line;
                 Client.ReadDone 1] second_turn)) 0
     = Some first_answer.
Proof.
  split; [reflexivity|]. split; [reflexivity|].
  apply (@returned_turns_are_kept Reference.host revised _ second_turn 0 first_answer);
    reflexivity.
Defined.

Lemma only_last_turn_is_awaited_witness :
  nth_error (chat second_turn) 1 = Some second_question
  /\ awaiting second_question = true
  /\ 2%nat = List.length (chat second_turn)
  /\ busy second_turn = true.
Proof.
  split; [reflexivity|]. split; [reflexivity|].
  apply (@only_last_turn_is_awaited Reference.host revised
           [Client.UserInput Examples.prompt; Client.Submit;
            Client.ReadValue 0 (Examples.text_line ++ [newline]);
            Client.ReadDone 0;
            Client.UserInput (js "  And from work? "); Client.Submit]
           1 second_question); reflexivity.
Defined.

Lemma returned_turn_shows_final_status_witness :
  In first_answer (chat second_turn)
  /\ awaiting first_answer = false
  /\ final_status first_answer.
Proof.
  assert (In first_answer (chat second_turn)) as Hin by (left; reflexivity).
  split; [exact Hin|]. split; [reflexivity|].
  apply (@returned_turn_shows_final_status Reference.host revised
           [Client.UserInput Examples.prompt; Client.Submit;
            Client.ReadValue 0 (Examples.text_line ++ [newline]);
            Client.ReadDone 0;
            Client.UserInput (js "  And from work? "); Client.Submit]
           first_answer Hin). reflexivity.
Defined.

Lemma user_messages_are_trimmed_prompts_witness :
  In second_question (chat second_turn)
  /\ userMsg second_question = js "And from work?"
  /\ trim (userMsg second_question) = userMsg second_question.
Proof.
  assert (In second_question (chat second_turn)) as Hin by (right; left; reflexivity).
  split; [exact Hin|]. split; [reflexivity|].
  apply (@user_messages_are_trimmed_prompts Reference.host revised
           [Client.UserInput Examples.prompt; Client.Submit;
            Client.ReadValue 0 (Examples.text_line ++ [newline]);
            Client.ReadDone 0;
            Client.UserInput (js "  And from work? "); Client.Submit]
           second_question Hin).
Defined.

Lemma listeners_accept_nonblank_input_when_idle_witness :
  busy initial = false
  /\ blank (js "   ") = true
  /\ Client.submit_handler (mkPage false false (js "   ") []) = mkPage false false (js "   ") []
  /\ Client.submit_handler (mkPage false false (js " hi ") [])
     = mkPage true true [] [Client.new_turn (js "hi")].
Proof.
  split; [reflexivity|]. split; [reflexivity|]. split.
  - apply (proj1 (listeners_accept_nonblank_input_when_idle
                    (mkPage false false (js "   ") [])
                    (Client.mkKey (js "Enter") false))).
    right. reflexivity.
  - apply (proj1 (proj2 (listeners_accept_nonblank_input_when_idle
                           (mkPage false false (js " hi ") [])
                           (Client.mkKey (js "Enter") false)))); reflexivity.
Defined.

(** The two halves of a text event: the event is whole and valid, yet a
    stream that cuts it between two chunks gives the page of a stream
    without it. *)
Lemma line_cut_by_chunk_boundary_is_lost_witness :
  @received Reference.host (cut_head ++ cut_tail)
  = Some (Obj [(js "type", Str (js "text")); (js "content", Str (js "Found 3 emails"))])
  /\ @send_in Reference.host revised Examples.prompt
       (Streamed [Examples.status_line ++ newline :: cut_head;
                  cut_tail ++ newline :: Examples.done_line] Closed) initial
     = @send_in Reference.host revised Examples.prompt
         (Streamed [Examples.status_line ++ newline :: Examples.done_line] Closed) initial.
Proof.
  split; [vm_compute; reflexivity|].
  apply (@line_cut_by_chunk_boundary_is_lost Reference.host revised cut_head cut_tail
           Examples.prompt [] Examples.status_line Examples.done_line [] Closed initial).
  - intros Hin. vm_compute in Hin. intuition discriminate.
  - intros Hin. vm_compute in Hin. intuition discriminate.
  - vm_compute. reflexivity.
  - vm_compute. reflexivity.
Defined.

Lemma card_never_loses_a_class_witness :
  In (js "connected") (Google.card_classList card)
  /\ In (js "connected")
       (Google.card_classList
          (fold_left Google.step
             [Google.Checked None; Google.Checked (Some (Obj [(js "connected", Bool false)]));
              Google.Message Null] card)).
Proof.
  assert (In (js "connected") (Google.card_classList card)) as Hin
    by (right; left; reflexivity).
  split; [exact Hin|]. now apply GoogleFacts.card_never_loses_a_class.
Defined.

Lemma teacher_names_survive_the_field_witness :
  Settings.teachers_input panel = join (js ", ") teachers
  /\ Settings.teacher_names (fst (@Settings.saveSettings Reference.host None panel)) = teachers.
Proof.
  split; [reflexivity|].
  apply (@SettingsFacts.teacher_names_survive_the_field Reference.host teachers None panel);
    [|reflexivity].
  repeat constructor; try discriminate; try reflexivity;
    intros Hin; vm_compute in Hin; intuition discriminate.
Defined.

Lemma blank_teachers_field_posts_no_names_witness :
  forallb (fun c => isWhiteSpace c || (c =? comma)) (Settings.teachers_input empty_panel) = true
  /\ Settings.teacher_names (fst (@Settings.saveSettings Reference.host (Some saved) empty_panel))
     = []
  /\ Settings.school_status_innerHTML
       (snd (@Settings.saveSettings Reference.host (Some saved) empty_panel))
     = jsq "<span class='dot'></span> No school".
Proof.
  split; [reflexivity|].
  apply (@SettingsFacts.blank_teachers_field_posts_no_names Reference.host saved (Bool true)
           empty_panel); reflexivity.
Defined.

Lemma escapeHtml_is_injective_witness :
  escapeHtml (js "a<b & c") = escapeHtml (js "a<b & c") /\ js "a<b & c" = js "a<b & c".
Proof.
  split; [reflexivity|]. apply escapeHtml_is_injective. reflexivity.
Defined.

Lemma formatMarkdown_keeps_plain_text_witness :
  forallb (fun c => negb (markdown_special c)) (js "Found 3 emails.") = true
  /\ formatMarkdown (js "Found 3 emails.") = js "Found 3 emails.".
Proof.
  split; [reflexivity|]. apply formatMarkdown_keeps_plain_text. reflexivity.
Defined.

(** ** The markup of formatMarkdown stands for its input *)

Section Renders.
Variable R : list (JsString * JsString).
Variable P : N -> Prop.
Hypothesis P_plain : forall c, P c -> plain c.
Hypothesis R_led : led (map fst R).

Lemma renders_app (a sa b sb : JsString) :
  renders R P a sa -> renders R P b sb -> renders R P (a ++ b) (sa ++ sb).
Proof.
  induction 1 as [|c h s Hc _ IH|w x h s Hw _ IH]; intros Hb; simpl.
  - exact Hb.
  - apply renders_unit; auto.
  - rewrite <- !app_assoc. apply renders_word; auto.
Qed.

Lemma renders_nil_inv (s : JsString) : renders R P [] s -> s = [].
Proof.
  intros Hr. remember [] as h eqn:E. destruct Hr as [|c h s Hc Hr|w x h s Hw Hr].
  - reflexivity.
  - discriminate.
  - destruct (R_led w) as (c & w' & -> & _).
    { apply in_map_iff. now exists (w, x). }
    discriminate.
Qed.

Lemma renders_plain_inv (c : N) (h s : JsString) :
  plain c -> renders R P (c :: h) s ->
  exists s', s = c :: s' /\ P c /\ renders R P h s'.
Proof.
  intros Hc Hr. remember (c :: h) as ch eqn:E.
  destruct Hr as [|c' h' s' Hc' Hr|w x h' s' Hw Hr].
  - discriminate.
  - injection E as -> ->. now exists s'.
  - destruct (R_led w) as (c' & w' & -> & Hn).
    { apply in_map_iff. now exists (w, x). }
    simpl in E. injection E as -> _. contradiction.
Qed.

Lemma renders_drop_plain (p h s : JsString) :
  Forall plain p -> renders R P (p ++ h) s ->
  exists s', s = p ++ s' /\ renders R P h s'.
Proof.
  intros Hp. revert s. induction Hp as [|c p Hc _ IH]; simpl; intros s Hr.
  - now exists s.
  - apply renders_plain_inv in Hr as (s1 & -> & _ & Hr); [|exact Hc].
    destruct (IH s1 Hr) as (s2 & -> & Hr2). now exists s2.
Qed.

Lemma renders_cut (x : N) (g r s : JsString) :
  (forall w, In w (map fst R) -> ~ In x w) ->
  renders R P (g ++ x :: r) s ->
  exists sg sr, s = sg ++ sr /\ renders R P g sg /\ renders R P (x :: r) sr.
Proof.
  intros HA H. remember (g ++ x :: r) as h eqn:Hh. revert g Hh.
  induction H as [|c h s Hc H IH|w y h s Hw H IH]; intros g Hh.
  - now destruct g.
  - destruct g as [|d g]; simpl in Hh.
    + injection Hh as -> ->. exists [], (x :: s).
      split; [reflexivity|]. split; [apply renders_nil|now apply renders_unit].
    + injection Hh as -> ->. destruct (IH g eq_refl) as (sg & sr & -> & Hg & Hr).
      exists (d :: sg), sr. split; [reflexivity|]. split; [now apply renders_unit|exact Hr].
  - assert (~ In x w) as Hx by (apply HA, in_map_iff; now exists (w, y)).
    destruct (app_prefix x w h g r Hx Hh) as (g' & -> & ->).
    destruct (IH g' eq_refl) as (sg & sr & -> & Hg & Hr).
    exists (y ++ sg), sr. split; [now rewrite app_assoc|].
    split; [now apply renders_word|exact Hr].
Qed.

End Renders.

Lemma renders_mono (R R' : list (JsString * JsString)) (P P' : N -> Prop)
      (h s : JsString) :
  incl R R' -> (forall c, P c -> P' c) -> renders R P h s -> renders R' P' h s.
Proof.
  intros HR HP. induction 1;
    [apply renders_nil|apply renders_unit|apply renders_word]; auto.
Qed.

Lemma escapeHtml_renders (s : JsString) : renders entity_rules plain (escapeHtml s) s.
Proof.
  rewrite escapeHtml_units. induction s as [|c s IH]; [apply renders_nil|].
  cbn [flat_map].
  destruct (escape_unit_cases c) as [[Pc Ec]|[[-> Ec]|[[-> Ec]|[-> Ec]]]]; rewrite Ec.
  - now apply renders_unit.
  - apply (@renders_word entity_rules plain (js "&amp;") [amp]); [now left|exact IH].
  - apply (@renders_word entity_rules plain (js "&lt;") [lt]); [right; now left|exact IH].
  - apply (@renders_word entity_rules plain (js "&gt;") [gt]);
      [right; right; now left|exact IH].
Qed.

Lemma led_entity_rules : led (map fst entity_rules).
Proof. apply ledb_spec. vm_compute. reflexivity. Qed.

Lemma star_absent_rules : forall w, In w (map fst strong_rules) -> ~ In star w.
Proof. apply absentb_spec. vm_compute. reflexivity. Qed.

Lemma bold_renders (n : nat) (e s : JsString) :
  (List.length e <= n)%nat -> renders entity_rules plain e s ->
  renders strong_rules plain (replace bold e) s.
Proof.
  assert (incl entity_rules strong_rules) as Hincl by (do 2 apply incl_tl; apply incl_refl).
  assert (forall w, In w (map fst entity_rules) -> ~ In star w) as Habs.
  { intros w Hw. apply star_absent_rules. simpl. right. right. exact Hw. }
  revert e s. induction n as [|n IH]; intros e s Hn Hr.
  { destruct e; [|simpl in Hn; lia].
    rewrite (renders_nil_inv led_entity_rules Hr). apply renders_nil. }
  destruct Hr as [|c h s Hc Hr|w x h s Hw Hr].
  - apply renders_nil.
  - simpl in Hn. rewrite replace_cons.
    destruct (bold (c :: h)) as [[r k]|] eqn:Hb.
    + apply bold_Some in Hb as (g & rest & Heq & -> & ->).
      injection Heq as -> ->.
      apply (renders_plain_inv led_entity_rules plain_star) in Hr as (s1 & -> & _ & Hr).
      apply (renders_cut _ _ _ Habs) in Hr as (sg & sr & -> & Hg & Hr).
      apply (renders_plain_inv led_entity_rules plain_star) in Hr as (s2 & -> & _ & Hr).
      apply (renders_plain_inv led_entity_rules plain_star) in Hr as (s3 & -> & _ & Hr).
      replace (skipn (1 + List.length g + 2) (star :: g ++ star :: star :: rest))
        with rest.
      2:{ change (star :: g ++ star :: star :: rest)
            with ([star] ++ g ++ [star; star] ++ rest).
          rewrite !app_assoc. rewrite skipn_app.
          rewrite skipn_all2 by (rewrite !length_app; simpl; lia).
          rewrite !length_app. simpl List.length.
          replace (1 + List.length g + 2 - (1 + List.length g + 2))%nat with 0%nat by lia.
          reflexivity. }
      rewrite <- !app_assoc.
      change (star :: star :: sg ++ star :: star :: s3)
        with ([star; star] ++ sg ++ [star; star] ++ s3).
      apply renders_word; [now left|].
      apply renders_app; [eapply renders_mono; [exact Hincl| |exact Hg]; auto|].
      apply renders_word; [right; now left|].
      apply IH; [|exact Hr].
      simpl in Hn. rewrite length_app in Hn. simpl in Hn. lia.
    + apply renders_unit; [exact Hc|]. apply IH; [lia|exact Hr].
  - assert (In w (map fst entity_rules)) as Hw' by (apply in_map_iff; now exists (w, x)).
    rewrite replace_word.
    + apply renders_word; [now apply Hincl|]. apply IH; [|exact Hr].
      rewrite length_app in Hn.
      destruct (led_entity_rules Hw') as (c & w0 & -> & _). simpl in Hn. lia.
    + intros y t Hy. apply bold_miss. intros ->. exact (Habs w Hw' Hy).
Qed.

Lemma literal_renders (R : list (JsString * JsString)) (P P' : N -> Prop)
      (p0 : N) (ptail rep : JsString) :
  led (map fst R) -> (forall c, P c -> plain c) ->
  plain p0 -> Forall plain ptail ->
  (forall w, In w (map fst R) -> ~ In p0 w) ->
  (forall c, P c -> (ptail = [] -> c <> p0) -> P' c) ->
  forall (n : nat) (e s : JsString),
    (List.length e <= n)%nat -> renders R P e s ->
    renders ((rep, p0 :: ptail) :: R) P' (replace (literal (p0 :: ptail) rep) e) s.
Proof.
  intros Hled HP Hp0 Hptail Habs Hstep.
  induction n as [|n IH]; intros e s Hn Hr.
  { destruct e; [|simpl in Hn; lia].
    rewrite (renders_nil_inv Hled Hr). apply renders_nil. }
  destruct Hr as [|c h s Hc Hr|w x h s Hw Hr].
  - apply renders_nil.
  - simpl in Hn. rewrite replace_cons. unfold literal at 1.
    destruct (startsWith (p0 :: ptail) (c :: h)) eqn:Hm.
    + apply startsWith_app in Hm. simpl in Hm. injection Hm as -> Hm.
      cbn [List.length pred]. rewrite Hm in Hr.
      apply (renders_drop_plain Hled _ Hptail) in Hr as (s2 & -> & Hr).
      change (p0 :: ptail ++ s2) with ((p0 :: ptail) ++ s2).
      apply renders_word; [now left|].
      apply IH; [rewrite length_skipn; lia|exact Hr].
    + apply renders_unit.
      * apply Hstep; [exact Hc|]. intros -> ->. simpl in Hm.
        rewrite N.eqb_refl in Hm. discriminate.
      * apply IH; [lia|exact Hr].
  - assert (In w (map fst R)) as Hw' by (apply in_map_iff; now exists (w, x)).
    rewrite replace_word.
    + apply renders_word; [now right|]. apply IH; [|exact Hr].
      rewrite length_app in Hn.
      destruct (Hled w Hw') as (c & w0 & -> & _). simpl in Hn. lia.
    + intros y t Hy. apply literal_miss. intros ->. exact (Habs w Hw' Hy).
Qed.

Lemma formatMarkdown_renders (s : JsString) :
  renders markdown_rules copied (formatMarkdown s) s.
Proof.
  unfold formatMarkdown, markdown_rules, warning_span, bullet_span, warning.
  eapply (literal_renders (P := copied)); [| | | | | |apply Nat.le_refl|].
  - apply ledb_spec. vm_compute. reflexivity.
  - now intros c [Hc _].
  - apply plainb_spec. reflexivity.
  - repeat constructor; apply plainb_spec; reflexivity.
  - apply absentb_spec. vm_compute. reflexivity.
  - auto.
  - eapply (literal_renders (P := fun c => plain c /\ c <> newline));
      [| | | | | |apply Nat.le_refl|].
    + apply ledb_spec. vm_compute. reflexivity.
    + now intros c [Hc _].
    + apply plainb_spec. reflexivity.
    + constructor.
    + apply absentb_spec. vm_compute. reflexivity.
    + intros c [Hc Hn] Hb. split; [exact Hc|]. split; [exact Hn|exact (Hb eq_refl)].
    + eapply (literal_renders (P := plain)); [| | | | | |apply Nat.le_refl|].
      * apply ledb_spec. vm_compute. reflexivity.
      * auto.
      * apply plainb_spec. reflexivity.
      * constructor.
      * apply absentb_spec. vm_compute. reflexivity.
      * intros c Hc Hn. split; [exact Hc|exact (Hn eq_refl)].
      * eapply bold_renders; [apply Nat.le_refl|apply escapeHtml_renders].
Qed.

(** *** The markup stands for one text only *)

Lemma startsWith_self (w h : JsString) : startsWith w (w ++ h) = true.
Proof. induction w as [|c w IH]; [reflexivity|]. simpl. now rewrite N.eqb_refl. Qed.

Lemma startsWith_either (w1 h1 w2 h2 : JsString) :
  w1 ++ h1 = w2 ++ h2 -> startsWith w1 w2 = true \/ startsWith w2 w1 = true.
Proof.
  revert w2; induction w1 as [|c w1 IH]; intros [|d w2]; simpl; auto.
  intros [= <- E]. rewrite N.eqb_refl. simpl. exact (IH w2 E).
Qed.

Lemma unambiguousb_spec (R : list (JsString * JsString)) :
  unambiguousb R = true ->
  forall w1 x1 w2 x2 h1 h2,
    In (w1, x1) R -> In (w2, x2) R -> w1 ++ h1 = w2 ++ h2 -> x1 = x2 /\ h1 = h2.
Proof.
  unfold unambiguousb. intros HR w1 x1 w2 x2 h1 h2 H1 H2 E.
  rewrite forallb_forall in HR.
  pose proof (HR _ H1) as H12. rewrite forallb_forall in H12. specialize (H12 _ H2).
  pose proof (HR _ H2) as H21. rewrite forallb_forall in H21. specialize (H21 _ H1).
  cbn [fst snd] in H12, H21.
  destruct (startsWith_either _ _ _ _ E) as [Hs|Hs].
  - rewrite Hs in H12. cbn [negb orb] in H12.
    apply andb_prop in H12 as [Ew Ex]. apply eqb_eq in Ew, Ex. subst w2 x2.
    split; [reflexivity|]. exact (app_inv_head _ _ _ E).
  - rewrite Hs in H21. cbn [negb orb] in H21.
    apply andb_prop in H21 as [Ew Ex]. apply eqb_eq in Ew, Ex. subst w2 x2.
    split; [reflexivity|]. exact (app_inv_head _ _ _ E).
Qed.

(** A markup renders one text at most. *)
Lemma renders_functional (R : list (JsString * JsString)) (P : N -> Prop) :
  (forall c, P c -> plain c) -> led (map fst R) -> unambiguousb R = true ->
  forall h s, renders R P h s -> forall s', renders R P h s' -> s' = s.
Proof.
  intros HP Hled Hun h s Hr.
  induction Hr as [|c h s Hc Hr IH|w x h s Hw Hr IH]; intros s' Hr'.
  - exact (renders_nil_inv Hled Hr').
  - apply (renders_plain_inv Hled (HP c Hc)) in Hr' as (s1 & -> & _ & Hr').
    f_equal. exact (IH s1 Hr').
  - remember (w ++ h) as wh eqn:E.
    destruct Hr' as [|c' h' s1 Hc' Hr'|w' x' h' s1 Hw' Hr'].
    + destruct (Hled w) as (c & w0 & -> & _); [apply in_map_iff; now exists (w, x)|].
      discriminate.
    + destruct (Hled w) as (c & w0 & -> & Hn); [apply in_map_iff; now exists (w, x)|].
      simpl in E. injection E as -> _. exfalso. exact (Hn (HP c Hc')).
    + destruct (unambiguousb_spec R Hun _ _ _ _ _ _ Hw' Hw E) as [-> ->].
      f_equal. exact (IH s1 Hr').
Qed.

Lemma markdown_rules_functional (h s s' : JsString) :
  renders markdown_rules copied h s -> renders markdown_rules copied h s' -> s' = s.
Proof.
  intros Hs Hs'. eapply renders_functional; [| | |exact Hs|exact Hs'].
  - now intros c [Hc _].
  - apply ledb_spec. vm_compute. reflexivity.
  - vm_compute. reflexivity.
Qed.

(** The stretches of the text that become tags hold no HTML syntax: a
    word of the markup is an entity, or it stands for plain units. *)
Lemma markdown_rules_sources (w x : JsString) :
  In (w, x) markdown_rules -> In (w, x) entity_rules \/ Forall plain x.
Proof.
  unfold markdown_rules.
  intros [E|[E|[E|[E|[E|Hent]]]]]; [| | | | |now left];
    injection E as <- <-; right; repeat constructor; apply plainb_spec; reflexivity.
Qed.

(** C8. For every input [s], [formatMarkdown] escapes first: the text
    that the formatting passes work on is [s] with each [&], [<] and [>]
    replaced by its entity and every other unit copied.  The returned HTML
    is made of plain units, entities and the formatter's own tags
    ([<strong>], [</strong>], [<br>], the two styled [<span ...>] and
    [</span>]), and it is [s] read through the rules of the formatter:
    every entity stands for the [&], [<] or [>] of [s] at its place,
    every tag for the stars, the line feed, the bullet or the warning sign
    of [s] at its place (stretches without HTML syntax), every other unit
    is the unit of [s] at its place, and no text but [s] is rendered by
    this HTML.  So no [<] or [>] of the output comes from the input, and
    a tag written in the input arrives escaped. *)
Theorem formatMarkdown_escapes_then_renders (s : JsString) :
  escapeHtml s = flat_map escape_unit s
  /\ formatMarkdown s
     = replace (literal warning (span_warning ++ warning ++ span_close))
         (replace (literal [bullet] (span_bullet ++ [bullet] ++ span_close))
            (replace (literal [newline] br)
               (replace bold (escapeHtml s))))
  /\ tokens entities (escapeHtml s)
  /\ tokens (entities ++ formatter_tags) (formatMarkdown s)
  /\ renders markdown_rules copied (formatMarkdown s) s
  /\ (forall s', renders markdown_rules copied (formatMarkdown s) s' -> s' = s)
  /\ (forall w x, In (w, x) markdown_rules -> In (w, x) entity_rules \/ Forall plain x).
Proof.
  destruct (formatMarkdown_only_formatter_tags s) as (Hu & He & Ht).
  split; [exact Hu|]. split; [reflexivity|]. split; [exact He|]. split; [exact Ht|].
  split; [apply formatMarkdown_renders|]. split; [|apply markdown_rules_sources].
  intros s' Hs'. exact (markdown_rules_functional (formatMarkdown_renders s) Hs').
Qed.

(** A tag in the input arrives escaped, and the markdown around it is
    formatted. *)
Example formatMarkdown_escapes_tag :
  formatMarkdown (js "**hi** <strong>pwned</strong>")
  = js "<strong>hi</strong> &lt;strong&gt;pwned&lt;/strong&gt;".
Proof. vm_compute. reflexivity. Qed.

(** X18. [formatMarkdown] loses nothing: two texts with the same markup
    are the same text. *)
Theorem formatMarkdown_is_injective (a b : JsString) :
  formatMarkdown a = formatMarkdown b -> a = b.
Proof.
  intros E. pose proof (formatMarkdown_renders b) as Hb. rewrite <- E in Hb.
  symmetry. exact (markdown_rules_functional (formatMarkdown_renders a) Hb).
Qed.

Lemma formatMarkdown_is_injective_witness :
  formatMarkdown (js "a **b** < c") = formatMarkdown (js "a **b** < c")
  /\ js "a **b** < c" = js "a **b** < c".
Proof.
  split; [reflexivity|].
  apply (@formatMarkdown_is_injective (js "a **b** < c") (js "a **b** < c")).
  reflexivity.
Defined.

(** ** The answer of a turn *)



Section Answer.
Context `{Host}.





End Answer.



(** The answer of that stream. *)
Example whole_lines_answer :
  List.concat (filter_map (@text_content Reference.host)
                 (@events Reference.host (List.concat MoreExamples.whole_lines)))
  = js "Found 3 emails from school.**3** emails from <school>".
Proof. vm_compute. reflexivity. Qed.
